(** * auth/user.go: users, their keys, and the two stores they live in

    A shallow embedding of [src/auth/user.go] of tsuru.  A user record is
    kept in the Document Store (MongoDB, package [db]) and mirrored in the
    Repository Manager (package [repository]).  Both are collaborators that
    can fail on their own, so every Go function that talks to them is a
    computation over an explicit [World]: the contents of the two stores,
    the configuration, the log, and a schedule of injected failures. *)

From Stdlib Require Import ZArith DecimalString DecimalPos DecimalZ.
From stdpp Require Import gmap strings list fin_maps.

Local Open Scope Z_scope.

(** ** Errors *)

(** Go [error] values.  [errorString] is what [errors.New] and [fmt.Errorf]
    build; [ValidationError] is [errors.ValidationError] of tsuru. *)
Inductive error : Type :=
  | errorString (s : string)
  | ValidationError (Message : string).

(** The [Error()] method. *)
Definition Error (e : error) : string :=
  match e with
  | errorString s => s
  | ValidationError m => m
  end.

Definition ErrUserNotFound : error := errorString "user not found".
Definition ErrUserAlreadyHasKey : error := errorString "user already has this key".
Definition ErrKeyNotFound : error := errorString "key not found".

(** ** Data model *)

Record Key : Type := mkKey { Name : string; Content : string }.

(** The zero value [Key{}]. *)
Definition zeroKey : Key := mkKey "" "".

Module quota.
(** Modelled from the spec: package [quota] is not part of the sources at
    hand.  Section 3 describes a quota as a [limit] (with -1 meaning
    unbounded) and a count of what is in use. *)
Record Quota : Type := mkQuota { Limit : Z; InUse : Z }.

(** Modelled from the spec: the unlimited sentinel, limit -1, nothing in
    use. *)
Definition Unlimited : Quota := mkQuota (-1) 0.
End quota.

Record User : Type := mkUser {
  Email : string;
  Password : string;
  Keys : list Key;
  Quota : quota.Quota;
  APIKey : string
}.

Definition set_Keys (u : User) (ks : list Key) : User :=
  mkUser (Email u) (Password u) ks (Quota u) (APIKey u).

Definition set_Quota (u : User) (q : quota.Quota) : User :=
  mkUser (Email u) (Password u) (Keys u) q (APIKey u).

Definition set_Limit (q : quota.Quota) (l : Z) : quota.Quota :=
  quota.mkQuota l (quota.InUse q).

(** ** The world *)

(** Calls made to the collaborators, as a test double would record them. *)
Inductive Call : Type :=
  | DbConn
  | DbInsert (email : string)
  | DbUpdate (email : string)
  | DbRemove (email : string)
  | DbFindOne (email : string)
  | RmCreateUser (email : string)
  | RmRemoveUser (email : string)
  | RmAddKey (email name : string)
  | RmRemoveKey (email name : string).

(** Log lines.  [LogErrorf] keeps the format string of [log.Errorf] and its
    arguments unrendered; [LogCompensation] is the secondary diagnostic of a
    failed backward step of a pipeline. *)
Inductive LogEntry : Type :=
  | LogErrorf (format : string) (args : list string)
  | LogCompensation (e : error).

Record World : Type := mkWorld {
  users : gmap string User;                 (* Document Store, by email *)
  repo : gmap string (gmap string string);  (* Repository Manager: user, key name, body *)
  conf : gmap string Z;                     (* integer settings *)
  logs : list LogEntry;
  faults : list (option error);             (* outcome injected into the next calls *)
  calls : list Call
}.

Definition set_users (w : World) (m : gmap string User) : World :=
  mkWorld m (repo w) (conf w) (logs w) (faults w) (calls w).

Definition set_repo (w : World) (r : gmap string (gmap string string)) : World :=
  mkWorld (users w) r (conf w) (logs w) (faults w) (calls w).

Definition set_faults (w : World) (fs : list (option error)) : World :=
  mkWorld (users w) (repo w) (conf w) (logs w) fs (calls w).

Definition add_call (w : World) (c : Call) : World :=
  mkWorld (users w) (repo w) (conf w) (logs w) (faults w) (calls w ++ [c]).

Definition add_log (w : World) (l : LogEntry) : World :=
  mkWorld (users w) (repo w) (conf w) (logs w ++ [l]) (faults w) (calls w).

(** ** Computations over the world *)

Definition M (A : Type) : Type := World -> A * World.

Definition ret {A} (a : A) : M A := fun w => (a, w).

Definition bind {A B} (m : M A) (k : A -> M B) : M B :=
  fun w => let (a, w1) := m w in k a w1.

Notation "'do' x <- m ; k" := (bind m (fun x => k))
  (at level 10, x pattern, m at level 100, k at level 200).

(** One call to a collaborator: the call is recorded, then the head of the
    fault schedule decides.  An injected error makes the call fail without
    touching the store; otherwise (also when the schedule is exhausted) the
    collaborator's own behaviour [run] takes place. *)
Definition external {R} (c : Call) (failed : error -> R) (run : M R) : M R :=
  fun w =>
    let w1 := add_call w c in
    match faults w1 with
    | Some e :: fs => (failed e, set_faults w1 fs)
    | None :: fs => run (set_faults w1 fs)
    | [] => run w1
    end.

Module log.
Definition Errorf (format : string) (args : list string) : M unit :=
  fun w => (tt, add_log w (LogErrorf format args)).
End log.

(** ** The collaborators *)

Module config.
(** [config.GetInt] of the configuration library: the integer stored under
    [key], or an error when the setting is absent. *)
Definition GetInt (key : string) : M (Z * option error) :=
  fun w =>
    match conf w !! key with
    | Some v => ((v, None), w)
    | None => ((0, Some (errorString ("key " +:+ key +:+ " not found"))), w)
    end.
End config.

Module db.
(** Modelled from the spec: package [db] is not part of the sources at
    hand.  Section 1 gives the Document Store [find], [insert], [update]
    and [remove] over user records keyed by email, atomic per document;
    insertion fails on a duplicate key (section 4.3), and every call can
    fail for connectivity reasons, which is what the fault schedule of
    [external] injects. *)
Definition ErrNotFound : error := errorString "not found".

(** Modelled from the spec: the error of an insertion under an email that
    already has a record. *)
Definition ErrDup : error := errorString "duplicate key error".

(** Modelled from the spec: [db.Conn()], which opens the connection. *)
Definition Conn : M (option error) :=
  external DbConn Some (ret None).

(** Modelled from the spec: [conn.Users().Insert(u)]. *)
Definition users_Insert (u : User) : M (option error) :=
  external (DbInsert (Email u)) Some
    (fun w =>
       match users w !! Email u with
       | Some _ => (Some ErrDup, w)
       | None => (None, set_users w (<[Email u := u]> (users w)))
       end).

(** Modelled from the spec: [conn.Users().Update(bson.M{"email": email}, u)]. *)
Definition users_Update (email : string) (u : User) : M (option error) :=
  external (DbUpdate email) Some
    (fun w =>
       match users w !! email with
       | Some _ => (None, set_users w (<[email := u]> (users w)))
       | None => (Some ErrNotFound, w)
       end).

(** Modelled from the spec: [conn.Users().Remove(bson.M{"email": email})]. *)
Definition users_Remove (email : string) : M (option error) :=
  external (DbRemove email) Some
    (fun w =>
       match users w !! email with
       | Some _ => (None, set_users w (delete email (users w)))
       | None => (Some ErrNotFound, w)
       end).

(** Modelled from the spec: [conn.Users().Find(bson.M{"email": email}).One(&u)]. *)
Definition users_FindOne (email : string) : M (error + User) :=
  external (DbFindOne email) inl
    (fun w =>
       match users w !! email with
       | Some u => (inr u, w)
       | None => (inl ErrNotFound, w)
       end).
End db.

Module repository.
(** [repository.Key], with the two fields that [RepoKey] fills. *)
Record Key : Type := mkKey { Name : string; Body : string }.

(** Modelled from the spec: package [repository] is not part of the
    sources at hand.  Section 1 gives the Repository Manager [createUser],
    [removeUser], [addKey], [removeKey] and [listKeys] keyed by user
    email; it is a remote service and every call can fail with a network
    or service error, which is what the fault schedule of [external]
    injects.  Without an injected failure a call fails only when it makes
    no sense on the registered data, and then changes nothing. *)
Definition ErrUserNotFound : error := errorString "user not found".

(** Modelled from the spec: the service errors for a key deregistered that
    is not there and for a key registered twice. *)
Definition ErrKeyNotFound : error := errorString "key not found".
Definition ErrKeyAlreadyExists : error := errorString "key already exists".

(** Modelled from the spec: [Manager().CreateUser(email)].  Section 6:
    the creation is idempotent, a user already registered stays as it
    is. *)
Definition CreateUser (email : string) : M (option error) :=
  external (RmCreateUser email) Some
    (fun w =>
       match repo w !! email with
       | Some _ => (None, w)
       | None => (None, set_repo w (<[email := ∅]> (repo w)))
       end).

(** Modelled from the spec: [Manager().RemoveUser(email)]. *)
Definition RemoveUser (email : string) : M (option error) :=
  external (RmRemoveUser email) Some
    (fun w =>
       match repo w !! email with
       | Some _ => (None, set_repo w (delete email (repo w)))
       | None => (Some ErrUserNotFound, w)
       end).

(** Modelled from the spec: [Manager().AddKey(email, key)]. *)
Definition AddKey (email : string) (key : Key) : M (option error) :=
  external (RmAddKey email (Name key)) Some
    (fun w =>
       match repo w !! email with
       | None => (Some ErrUserNotFound, w)
       | Some ks =>
           match ks !! Name key with
           | Some _ => (Some ErrKeyAlreadyExists, w)
           | None => (None, set_repo w (<[email := <[Name key := Body key]> ks]> (repo w)))
           end
       end).

(** Modelled from the spec: [Manager().RemoveKey(email, key)]. *)
Definition RemoveKey (email : string) (key : Key) : M (option error) :=
  external (RmRemoveKey email (Name key)) Some
    (fun w =>
       match repo w !! email with
       | None => (Some ErrUserNotFound, w)
       | Some ks =>
           match ks !! Name key with
           | None => (Some ErrKeyNotFound, w)
           | Some _ => (None, set_repo w (<[email := delete (Name key) ks]> (repo w)))
           end
       end).

(** The key named [name] is registered for [email]. *)
Definition registered (w : World) (email name : string) : bool :=
  match repo w !! email with
  | Some ks => bool_decide (is_Some (ks !! name))
  | None => false
  end.
End repository.

Module action.
(** Modelled from the spec: package [action] is not part of the sources at
    hand.  Section 2: an action is a forward operation and an optional
    backward (compensating) operation, each taking the shared context of
    the pipeline. *)
Record Action (Ctx : Type) : Type := mkAction {
  Forward : Ctx -> M (option error * Ctx);
  Backward : option (Ctx -> M (option error * Ctx))
}.
Arguments mkAction {Ctx} _ _.
Arguments Forward {Ctx} _ _.
Arguments Backward {Ctx} _.

(** Modelled from the spec: section 4.1, point 2 and the paragraph after
    it.  [done] holds the steps already executed, the latest first; each
    backward step runs, a failure of one is reported as a secondary
    diagnostic only, and the remaining ones still run. *)
Fixpoint rollback {Ctx} (done : list (Action Ctx)) (ctx : Ctx) : M Ctx :=
  match done with
  | [] => ret ctx
  | a :: older =>
      match Backward a with
      | None => rollback older ctx
      | Some bw =>
          do (err, ctx1) <- bw ctx;
          do _ <- (match err with
                   | Some e => fun w => (tt, add_log w (LogCompensation e))
                   | None => ret tt
                   end);
          rollback older ctx1
      end
  end.

(** Modelled from the spec: section 4.1.  The forward steps run in order;
    when step [k] fails, the later steps are skipped, the earlier ones are
    rolled back from [k-1] down to [0], and the error of step [k] is the
    result. *)
Fixpoint run {Ctx} (todo done : list (Action Ctx)) (ctx : Ctx) : M (option error * Ctx) :=
  match todo with
  | [] => ret (None, ctx)
  | a :: rest =>
      do (err, ctx1) <- Forward a ctx;
      match err with
      | None => run rest (a :: done) ctx1
      | Some e => do ctx2 <- rollback done ctx1; ret (Some e, ctx2)
      end
  end.

(** [action.NewPipeline(actions...).Execute(params...)]. *)
Definition Execute {Ctx} (actions : list (Action Ctx)) (ctx : Ctx) : M (option error * Ctx) :=
  run actions [] ctx.
End action.

(** ** auth/user.go *)

(** [fmt.Sprintf("%d", n)]. *)
Definition itoa (n : Z) : string := NilZero.string_of_int (Z.to_int n).

(** Go's built-in [copy(dst, src)] seen from [dst]: the first
    [min(len(dst), len(src))] elements are overwritten with those of [src]. *)
Definition copy {A} (dst src : list A) : list A :=
  take (length dst) src ++ drop (length src) dst.

Definition RepoKey (k : Key) : repository.Key :=
  repository.mkKey (Name k) (Content k).

Section GetUserByEmail.
(** [validation.ValidateEmail], defined outside the sources at hand. *)
Variable ValidateEmail : string -> bool.

Definition GetUserByEmail (email : string) : M (option User * option error) :=
  if negb (ValidateEmail email) then
    ret (None, Some (ValidationError "invalid email"))
  else
    do err <- db.Conn;
    match err with
    | Some e => ret (None, Some e)
    | None =>
        do r <- db.users_FindOne email;
        match r with
        | inl _ => ret (None, Some ErrUserNotFound)
        | inr u => ret (Some u, None)
        end
    end.
End GetUserByEmail.

Definition addKeyRepository (u : User) (key : Key) : M (option error) :=
  do err <- repository.AddKey (Email u) (RepoKey key);
  match err with
  | Some e => ret (Some (errorString ("failed to add key to git server: " +:+ Error e)))
  | None => ret None
  end.

Definition removeKeyRepository (u : User) (key : Key) : M (option error) :=
  do err <- repository.RemoveKey (Email u) (RepoKey key);
  match err with
  | Some e => ret (Some (errorString ("failed to remove the key from git server: " +:+ Error e)))
  | None => ret None
  end.

(** The loop of [createOnRepositoryManager] over [u.Keys]. *)
Fixpoint addKeysRepository (u : User) (keys : list Key) : M (option error) :=
  match keys with
  | [] => ret None
  | key :: rest =>
      do err <- addKeyRepository u key;
      match err with
      | Some e => ret (Some e)
      | None => addKeysRepository u rest
      end
  end.

Definition createOnRepositoryManager (u : User) : M (option error) :=
  do err <- repository.CreateUser (Email u);
  match err with
  | Some e => ret (Some e)
  | None => addKeysRepository u (Keys u)
  end.

Definition Delete (u : User) : M (option error) :=
  do err <- db.Conn;
  match err with
  | Some e => ret (Some e)
  | None =>
      do err <- db.users_Remove (Email u);
      do _ <- (match err with
               | Some e => log.Errorf "failed to remove user %q from the database: %s"
                             [Email u; Error e]
               | None => ret tt
               end);
      do err <- repository.RemoveUser (Email u);
      do _ <- (match err with
               | Some e => log.Errorf "failed to remove user %q from the repository manager: %s"
                             [Email u; Error e]
               | None => ret tt
               end);
      ret None
  end.

(** The quota block of [Create]: an unset limit (the zero value) becomes
    [quota.Unlimited], overridden by the setting [quota:apps-per-user] when
    it is present and above -1. *)
Definition resolveQuota (u : User) : M User :=
  if quota.Limit (Quota u) =? 0 then
    let u1 := set_Quota u quota.Unlimited in
    do (limit, err) <- config.GetInt "quota:apps-per-user";
    match err with
    | None => if limit >? -1 then ret (set_Quota u1 (set_Limit (Quota u1) limit)) else ret u1
    | Some _ => ret u1
    end
  else ret u.

Definition Create (u : User) : M (option error * User) :=
  do err <- db.Conn;
  match err with
  | Some e => ret (Some e, u)
  | None =>
      do u1 <- resolveQuota u;
      do err <- db.users_Insert u1;
      match err with
      | Some e => ret (Some e, u1)
      | None =>
          do err <- createOnRepositoryManager u1;
          match err with
          | Some e => do _ <- Delete u1; ret (Some e, u1)
          | None => ret (None, u1)
          end
      end
  end.

Definition Update (u : User) : M (option error) :=
  do err <- db.Conn;
  match err with
  | Some e => ret (Some e)
  | None => db.users_Update (Email u) u
  end.

(** The loop of [FindKey], [i] being the index of the head of [keys]. *)
Fixpoint findKeyFrom (i : Z) (keys : list Key) (key : Key) : Key * Z :=
  match keys with
  | [] => (zeroKey, -1)
  | k :: rest =>
      if String.eqb (Name k) (Name key) || String.eqb (Content k) (Content key)
      then (k, i)
      else findKeyFrom (i + 1) rest key
  end.

Definition FindKey (u : User) (key : Key) : Key * Z :=
  findKeyFrom 0 (Keys u) key.

Definition HasKey (u : User) (key : Key) : bool :=
  let (_, index) := FindKey u key in index >? -1.

Definition addKeyDB (u : User) (key : Key) : M (option error * User) :=
  let u1 := set_Keys u (Keys u ++ [key]) in
  do err <- Update u1;
  ret (err, u1).

(** Modelled from the spec: [auth/actions.go] is not part of the sources at
    hand.  Section 4.2, step 1: register the key with the Repository
    Manager; backward, deregister the same key.  The shared context is the
    pair of parameters [(&key, u)]. *)
Definition addKeyInRepositoryAction : action.Action (Key * User) :=
  action.mkAction
    (fun '(key, u) => do err <- addKeyRepository u key; ret (err, (key, u)))
    (Some (fun '(key, u) => do err <- removeKeyRepository u key; ret (err, (key, u)))).

(** Modelled from the spec: section 4.2, step 2: append the key to the
    in-memory list and persist the record; no backward step, it is the
    last one. *)
Definition addKeyInDatabaseAction : action.Action (Key * User) :=
  action.mkAction
    (fun '(key, u) => do (err, u1) <- addKeyDB u key; ret (err, (key, u1)))
    None.

(** The name [AddKey] gives a key that comes without one. *)
Definition nameKey (u : User) (key : Key) : Key :=
  if String.eqb (Name key) ""
  then mkKey (Email u +:+ "-" +:+ itoa (Z.of_nat (length (Keys u)) + 1)) (Content key)
  else key.

Definition AddKey (u : User) (key : Key) : M (option error * User) :=
  let key := nameKey u key in
  if HasKey u key then ret (Some ErrUserAlreadyHasKey, u)
  else
    do (err, ctx) <- action.Execute [addKeyInRepositoryAction; addKeyInDatabaseAction] (key, u);
    ret (err, snd ctx).

Definition RemoveKey (u : User) (key : Key) : M (option error * User) :=
  let (actualKey, index) := FindKey u key in
  if index <? 0 then ret (Some ErrKeyNotFound, u)
  else
    do err <- removeKeyRepository u actualKey;
    match err with
    | Some e => ret (Some e, u)
    | None =>
        let i := Z.to_nat index in
        let keys := take i (Keys u) ++ copy (drop i (Keys u)) (drop (i + 1)%nat (Keys u)) in
        let u1 := set_Keys u (take (length keys - 1)%nat keys) in
        do err <- Update u1;
        ret (err, u1)
    end.

(** ** auth/user.go: keys as the Repository Manager lists them *)

Section ListKeys.
(** [repository.Manager().ListKeys], defined outside the sources at hand:
    the keys registered for an email, or an error. *)
Variable Manager_ListKeys : string -> M (list repository.Key * option error).

(** The loop of [ListKeys]: [keysMap[key.Name] = key.Body] for each key in
    turn. *)
Definition keysMap (keys : list repository.Key) : gmap string string :=
  foldl (fun m key => <[repository.Name key := repository.Body key]> m) ∅ keys.

(** The map is [None] where Go returns a nil map. *)
Definition ListKeys (u : User) : M (option (gmap string string) * option error) :=
  do (keys, err) <- Manager_ListKeys (Email u);
  match err with
  | Some e => ret (None, Some e)
  | None => ret (Some (keysMap keys), None)
  end.
End ListKeys.

(** ** auth/user.go: teams and administrators *)

Section Teams.
(** [Team] is declared outside the sources at hand; [IsAdmin] reads its
    [Name]. *)
Variable Team : Type.
Variable Team_Name : Team -> string.

(** [conn.Teams().Find(bson.M{"users": email}).All(&teams)], outside the
    sources at hand. *)
Variable teams_FindAll : string -> M (list Team * option error).

(** [config.GetString] of the configuration library. *)
Variable GetString : string -> M (string * option error).

Definition Teams (u : User) : M (list Team * option error) :=
  do err <- db.Conn;
  match err with
  | Some e => ret ([], Some e)
  | None =>
      do (teams, err) <- teams_FindAll (Email u);
      match err with
      | Some e => ret ([], Some e)
      | None => ret (teams, None)
      end
  end.

(** The loop of [IsAdmin]. *)
Fixpoint hasTeamNamed (adminTeamName : string) (teams : list Team) : bool :=
  match teams with
  | [] => false
  | t :: rest =>
      if String.eqb (Team_Name t) adminTeamName then true
      else hasTeamNamed adminTeamName rest
  end.

Definition IsAdmin (u : User) : M bool :=
  do (adminTeamName, err) <- GetString "admin-team";
  match err with
  | Some _ => ret false
  | None =>
      do (teams, err) <- Teams u;
      match err with
      | Some _ => ret false
      | None => ret (hasTeamNamed adminTeamName teams)
      end
  end.
End Teams.

(** ** auth/user.go: the API key *)

Definition set_APIKey (u : User) (k : string) : User :=
  mkUser (Email u) (Password u) (Keys u) (Quota u) k.

(** One digit of [%x]. *)
Definition hexdigit (n : N) : Ascii.ascii :=
  Ascii.ascii_of_N (if (n <? 10)%N then 48 + n else 87 + n)%N.

(** [fmt.Sprintf("%x", b)] for a byte slice: two lowercase digits a byte. *)
Fixpoint hex (b : string) : string :=
  match b with
  | EmptyString => EmptyString
  | String a rest =>
      String (hexdigit (Ascii.N_of_ascii a / 16))
        (String (hexdigit (Ascii.N_of_ascii a mod 16)) (hex rest))
  end.

Section APIKey.
(** The digest [crypto.SHA256] gives for the bytes written to it. *)
Variable SHA256 : string -> string.

(** What the one [rand.Read] of a call yields: the 32 bytes and the error. *)
Variable rand_Read : string * option error.

(** What [time.Now().Format(time.RFC3339Nano)] yields during the call. *)
Variable now : string.

Definition RegenerateAPIKey (u : User) : M (string * option error * User) :=
  let (random_byte, err) := rand_Read in
  match err with
  | Some e => ret ("", Some e, u)
  | None =>
      let u1 := set_APIKey u (hex (SHA256 (Email u +:+ random_byte +:+ now))) in
      do err <- Update u1;
      ret (APIKey u1, err, u1)
  end.

Definition ShowAPIKey (u : User) : M (string * option error * User) :=
  do u1 <- (if String.eqb (APIKey u) ""
            then do (_, u1) <- RegenerateAPIKey u; ret u1
            else ret u);
  do err <- Update u1;
  ret (APIKey u1, err, u1).
End APIKey.

(** ** Vocabulary of the statements *)

(** The stores, the configuration and the log are those of [w]; the call [c]
    has been recorded last. *)
Definition after_call (c : Call) (w w1 : World) : Prop :=
  users w1 = users w /\ repo w1 = repo w /\ conf w1 = conf w /\
  logs w1 = logs w /\ calls w1 = calls w ++ [c].

(** [k] is what [FindKey] accepts for [key]: same name or same content. *)
Definition matches (k key : Key) : Prop :=
  Name k = Name key \/ Content k = Content key.

#[local] Instance matches_dec k key : Decision (matches k key).
Proof. unfold matches. apply _. Defined.

(** What [Delete] does to the log with the outcome [r] of a removal. *)
Definition logged (format : string) (u : User) (r : option error) (w : World) : World :=
  match r with
  | Some e => add_log w (LogErrorf format [Email u; Error e])
  | None => w
  end.

Definition fmt_database : string := "failed to remove user %q from the database: %s".
Definition fmt_manager : string :=
  "failed to remove user %q from the repository manager: %s".

(** The invariant of the data model: no two keys of a user share a name or
    a content. *)
Definition distinct_keys (keys : list Key) : Prop :=
  forall (i j : nat) ki kj,
    keys !! i = Some ki -> keys !! j = Some kj -> i <> j -> ~ matches ki kj.

(** ** Sample data *)

Definition alice : User := mkUser "a@x.com" "" [] quota.Unlimited "".
Definition k1 : Key := mkKey "k1" "ssh-rsa AAA".
Definition netErr : error := errorString "connection refused".

(** [u] is known to both stores, no key registered yet; [fs] is the fault
    schedule. *)
Definition world_of (u : User) (fs : list (option error)) : World :=
  mkWorld {[ Email u := u ]} {[ Email u := ∅ ]} ∅ [] fs [].

(** Nothing anywhere. *)
Definition empty_world (fs : list (option error)) : World :=
  mkWorld ∅ ∅ ∅ [] fs [].

Definition kA : Key := mkKey "laptop" "ssh-rsa AAA".
Definition kB : Key := mkKey "desktop" "ssh-rsa BBB".
Definition kC : Key := mkKey "phone" "ssh-rsa CCC".
Definition bob : User := mkUser "b@x.com" "" [kA; kB; kC] quota.Unlimited "".

(** [bob] known to both stores, the three keys registered. *)
Definition world_of_bob (fs : list (option error)) : World :=
  mkWorld {[ "b@x.com" := bob ]}
    {[ "b@x.com" := {[ "laptop" := "ssh-rsa AAA"; "desktop" := "ssh-rsa BBB";
                        "phone" := "ssh-rsa CCC" ]} ]}
    ∅ [] fs [].

(** A user yet to be created: quota unset, one key. *)
Definition carol : User := mkUser "c@x.com" "" [k1] (quota.mkQuota 0 0) "".

(** Empty stores and a per-user limit of five applications. *)
Definition world_limit_5 : World :=
  mkWorld ∅ ∅ {[ "quota:apps-per-user" := 5 ]} [] [] [].

(** [alice] is created, adds two keys without a name and removes the
    first: the outcomes of the four calls, the user, and the world. *)
Definition two_added_first_removed : list (option error) * User * World :=
  let '(e0, u0, w0) := Create alice (empty_world []) in
  let '(e1, u1, w1) := AddKey u0 (mkKey "" "ssh-rsa AAA") w0 in
  let '(e2, u2, w2) := AddKey u1 (mkKey "" "ssh-rsa BBB") w1 in
  let '(e3, u3, w3) := RemoveKey u2 (mkKey "" "ssh-rsa AAA") w2 in
  ([e0; e1; e2; e3], u3, w3).

(** ** Vocabulary and sample data of the further properties *)

(** Between [w] and [w'] nothing changed for any user but [email], in
    either store. *)
Definition others_untouched (email : string) (w w' : World) : Prop :=
  forall other, other <> email ->
    users w' !! other = users w !! other /\ repo w' !! other = repo w !! other.

(** The stores, the configuration and the log are the same in [w] and
    [w']. *)
Definition same_state (w w' : World) : Prop :=
  users w' = users w /\ repo w' = repo w /\ conf w' = conf w /\ logs w' = logs w.

(** A key [bob] does not have. *)
Definition kD : Key := mkKey "tablet" "ssh-rsa DDD".

(** A stand-in for a digest function: 32 bytes whatever the input. *)
Definition constant_digest (_ : string) : string := "0123456789abcdef0123456789abcdef".

(** A team as far as [IsAdmin] looks at it: its name. *)
Definition named_team : Type := string.

(** A key with the content of [kA] under another name, and a user whose
    key list holds both. *)
Definition kA' : Key := mkKey "desktop" "ssh-rsa AAA".
Definition dan : User := mkUser "d@x.com" "" [kA; kA'; kC] quota.Unlimited "".

(** [dan] is created, then asked to remove the second key. *)
Definition RemoveKey_after_Create : option error * User * World :=
  let '(_, u, w) := Create dan (empty_world []) in RemoveKey u kA' w.

(** * Properties *)

(** ** What a call to a collaborator can do *)

Lemma external_inv {R} (c : Call) (failed : error -> R) (run : M R) w r w' :
  external c failed run w = (r, w') ->
  (exists e, r = failed e /\ after_call c w w') \/
  (exists w0, after_call c w w0 /\ run w0 = (r, w')).
Proof.
  unfold external. intros H.
  destruct (faults (add_call w c)) as [|[e|] fs] eqn:Hf.
  - right. exists (add_call w c). split; [by repeat split | done].
  - left. exists e. inversion H; subst. by repeat split.
  - right. exists (set_faults (add_call w c) fs). split; [by repeat split | done].
Qed.

Ltac ext_inv H Hrun :=
  let e := fresh "e" in
  let w0 := fresh "w" in
  let Hc := fresh "Hcall" in
  apply external_inv in H as [(e & ? & Hc) | (w0 & Hc & Hrun)];
  [ | cbv beta in Hrun ].

Lemma Conn_inv w r w1 : db.Conn w = (r, w1) -> after_call DbConn w w1.
Proof.
  unfold db.Conn. intros H. ext_inv H Hrun; [done|]. by inversion Hrun; subst.
Qed.

Lemma repository_AddKey_failed email key w e w1 :
  repository.AddKey email key w = (Some e, w1) ->
  after_call (RmAddKey email (repository.Name key)) w w1.
Proof.
  unfold repository.AddKey. intros H. ext_inv H Hrun; [done|].
  destruct (repo w0 !! email) as [ks|]; [destruct (ks !! _)|];
    inversion Hrun; by subst.
Qed.

Ltac op_inv H :=
  let Hrun := fresh "Hrun" in
  ext_inv H Hrun;
  [ | repeat (match type of Hrun with
              | context [match ?x with _ => _ end] => destruct x eqn:?
              end);
      inversion Hrun; subst; try clear Hrun ];
  unfold after_call in *; simpl in *; destruct_and?.

(** *** The Repository Manager never touches the Document Store *)

Lemma repository_AddKey_ok email key w w1 :
  repository.AddKey email key w = (None, w1) ->
  users w1 = users w /\ logs w1 = logs w /\
  calls w1 = calls w ++ [RmAddKey email (repository.Name key)] /\
  repository.registered w1 email (repository.Name key) = true.
Proof.
  unfold repository.AddKey, repository.registered. intros H. op_inv H; try done.
  repeat split; try congruence.
  rewrite lookup_insert_eq. apply bool_decide_eq_true.
  rewrite lookup_insert_eq. by eexists.
Qed.

Lemma repository_RemoveKey_failed email key w e w1 :
  repository.RemoveKey email key w = (Some e, w1) ->
  after_call (RmRemoveKey email (repository.Name key)) w w1.
Proof.
  unfold repository.RemoveKey. intros H. op_inv H; try done; by repeat split.
Qed.

Lemma repository_RemoveKey_ok email key w w1 :
  repository.RemoveKey email key w = (None, w1) ->
  users w1 = users w /\ logs w1 = logs w /\
  calls w1 = calls w ++ [RmRemoveKey email (repository.Name key)] /\
  repository.registered w1 email (repository.Name key) = false.
Proof.
  unfold repository.RemoveKey, repository.registered. intros H. op_inv H; try done.
  repeat split; try congruence.
  rewrite lookup_insert_eq. apply bool_decide_eq_false.
  rewrite lookup_delete_eq. by intros [? ?].
Qed.

Lemma repository_CreateUser_users email w r w1 :
  repository.CreateUser email w = (r, w1) ->
  users w1 = users w /\ logs w1 = logs w.
Proof.
  unfold repository.CreateUser. intros H. op_inv H; split; congruence.
Qed.

Lemma repository_RemoveUser_failed email w e w1 :
  repository.RemoveUser email w = (Some e, w1) ->
  after_call (RmRemoveUser email) w w1.
Proof.
  unfold repository.RemoveUser. intros H. op_inv H; try done; by repeat split.
Qed.

Lemma repository_RemoveUser_ok email w w1 :
  repository.RemoveUser email w = (None, w1) ->
  users w1 = users w /\ logs w1 = logs w /\
  calls w1 = calls w ++ [RmRemoveUser email] /\ repo w1 !! email = None.
Proof.
  unfold repository.RemoveUser. intros H. op_inv H; try done.
  repeat split; try congruence. apply lookup_delete_eq.
Qed.

(** *** The Document Store *)

Lemma users_Insert_ok u w w1 :
  db.users_Insert u w = (None, w1) ->
  users w1 = <[Email u := u]> (users w) /\ repo w1 = repo w /\
  conf w1 = conf w /\ logs w1 = logs w /\ calls w1 = calls w ++ [DbInsert (Email u)].
Proof.
  unfold db.users_Insert. intros H. op_inv H; try done.
  repeat split; congruence.
Qed.

Lemma users_Update_failed email u w e w1 :
  db.users_Update email u w = (Some e, w1) -> after_call (DbUpdate email) w w1.
Proof.
  unfold db.users_Update. intros H. op_inv H; try done; by repeat split.
Qed.

Lemma users_Update_ok email u w w1 :
  db.users_Update email u w = (None, w1) ->
  users w1 = <[email := u]> (users w) /\ repo w1 = repo w /\
  logs w1 = logs w /\ calls w1 = calls w ++ [DbUpdate email].
Proof.
  unfold db.users_Update. intros H. op_inv H; try done.
  repeat split; congruence.
Qed.

Lemma users_Remove_failed email w e w1 :
  db.users_Remove email w = (Some e, w1) -> after_call (DbRemove email) w w1.
Proof.
  unfold db.users_Remove. intros H. op_inv H; try done; by repeat split.
Qed.

Lemma users_Remove_ok email w w1 :
  db.users_Remove email w = (None, w1) ->
  users w1 = delete email (users w) /\ repo w1 = repo w /\
  logs w1 = logs w /\ calls w1 = calls w ++ [DbRemove email].
Proof.
  unfold db.users_Remove. intros H. op_inv H; try done.
  repeat split; congruence.
Qed.

(** ** Looking a key up *)

Lemma matches_eqb k key :
  String.eqb (Name k) (Name key) || String.eqb (Content k) (Content key) = true
  <-> matches k key.
Proof.
  unfold matches. rewrite orb_true_iff, !String.eqb_eq. tauto.
Qed.

Lemma findKeyFrom_spec keys : forall i key,
  (findKeyFrom i keys key = (zeroKey, -1) /\
   Forall (fun k => ~ matches k key) keys) \/
  (exists (n : nat) k, findKeyFrom i keys key = (k, i + Z.of_nat n) /\
     keys !! n = Some k /\ matches k key /\
     Forall (fun k => ~ matches k key) (take n keys)).
Proof.
  induction keys as [|k0 keys IH]; intros i key; simpl.
  - left. split; [done | constructor].
  - destruct (String.eqb (Name k0) (Name key) || String.eqb (Content k0) (Content key)) eqn:E.
    + right. exists 0%nat, k0. rewrite Z.add_0_r. apply matches_eqb in E.
      repeat split; [done | constructor].
    + assert (~ matches k0 key) as Hk0.
      { rewrite <- matches_eqb, E. discriminate. }
      destruct (IH (i + 1) key) as [[Hf Hall] | (n & k & Hf & Hl & Hm & Hall)].
      * left. split; [done | by constructor].
      * right. exists (S n), k. repeat split; try done.
        -- rewrite Hf. f_equal. lia.
        -- simpl. by constructor.
Qed.

Lemma HasKey_true u key :
  HasKey u key = true <-> Exists (fun k => matches k key) (Keys u).
Proof.
  unfold HasKey, FindKey.
  destruct (findKeyFrom_spec (Keys u) 0 key)
    as [[Hf Hall] | (n & k & Hf & Hl & Hm & Hall)]; rewrite Hf.
  - split; [discriminate|]. intros Hex. apply Exists_exists in Hex as (k & Hin & Hm).
    rewrite Forall_forall in Hall. by destruct (Hall k Hin).
  - split; [|intros _; apply Z.gtb_lt; lia].
    intros _. apply Exists_exists. exists k. split; [|done].
    apply list_elem_of_lookup. by exists n.
Qed.

Lemma HasKey_false u key :
  HasKey u key = false <-> Forall (fun k => ~ matches k key) (Keys u).
Proof.
  rewrite <- not_true_iff_false, HasKey_true.
  rewrite <- Forall_Exists_neg. done.
Qed.

(** The name under which [AddKey] stores a key is never empty. *)
Lemma nameKey_named u key : Name (nameKey u key) <> "".
Proof.
  unfold nameKey. destruct (String.eqb (Name key) "") eqn:E.
  - simpl. by destruct (Email u).
  - by apply String.eqb_neq in E.
Qed.

Lemma nameKey_Content u key : Content (nameKey u key) = Content key.
Proof. unfold nameKey. by destruct (String.eqb (Name key) ""). Qed.

Lemma nameKey_id u key : Name key <> "" -> nameKey u key = key.
Proof. unfold nameKey. intros H. apply String.eqb_neq in H. by rewrite H. Qed.

Lemma filter_no_match key keys :
  Forall (fun k => ~ matches k key) keys ->
  filter (fun k => matches k key) keys = [].
Proof.
  induction 1 as [|k keys Hk _ IH]; [done|].
  by rewrite filter_cons_False.
Qed.

(** ** The pipeline *)

Lemma run_forward_ok {Ctx} (a : action.Action Ctx) rest done ctx w ctx1 w1 :
  action.Forward a ctx w = (None, ctx1, w1) ->
  action.run (a :: rest) done ctx w = action.run rest (a :: done) ctx1 w1.
Proof. intros H. simpl. unfold bind. by rewrite H. Qed.

Lemma run_forward_fails {Ctx} (a : action.Action Ctx) rest done ctx w e ctx1 w1 :
  action.Forward a ctx w = (Some e, ctx1, w1) ->
  action.run (a :: rest) done ctx w =
    (Some e, (action.rollback done ctx1 w1).1, (action.rollback done ctx1 w1).2).
Proof.
  intros H. simpl. unfold bind. rewrite H.
  by destruct (action.rollback done ctx1 w1).
Qed.

(** The three ways through [AddKey] once the duplicate check has passed. *)

Lemma AddKey_repository_fails u key w e w1 :
  HasKey u (nameKey u key) = false ->
  addKeyRepository u (nameKey u key) w = (Some e, w1) ->
  AddKey u key w = (Some e, u, w1).
Proof.
  intros Hk H. unfold AddKey, action.Execute, bind at 1. rewrite Hk.
  erewrite run_forward_fails; [|simpl; unfold bind; by rewrite H].
  done.
Qed.

Lemma AddKey_persist_fails u key w w1 e u2 w2 r w3 :
  HasKey u (nameKey u key) = false ->
  addKeyRepository u (nameKey u key) w = (None, w1) ->
  addKeyDB u (nameKey u key) w1 = (Some e, u2, w2) ->
  removeKeyRepository u2 (nameKey u key) w2 = (r, w3) ->
  AddKey u key w =
    (Some e, u2,
     match r with Some e' => add_log w3 (LogCompensation e') | None => w3 end).
Proof.
  intros Hk H1 H2 H3. unfold AddKey, action.Execute, bind at 1. rewrite Hk.
  erewrite run_forward_ok; [|simpl; unfold bind; by rewrite H1].
  erewrite run_forward_fails; [|simpl; unfold bind; by rewrite H2].
  simpl. unfold bind, ret. rewrite H3. by destruct r.
Qed.

Lemma AddKey_ok u key w w1 u2 w2 :
  HasKey u (nameKey u key) = false ->
  addKeyRepository u (nameKey u key) w = (None, w1) ->
  addKeyDB u (nameKey u key) w1 = (None, u2, w2) ->
  AddKey u key w = (None, u2, w2).
Proof.
  intros Hk H1 H2. unfold AddKey, action.Execute, bind at 1. rewrite Hk.
  erewrite run_forward_ok; [|simpl; unfold bind; by rewrite H1].
  erewrite run_forward_ok; [|simpl; unfold bind; by rewrite H2].
  done.
Qed.

(** [AddKey] returning nil took the third way. *)
Lemma AddKey_nil_inv u key w u2 w2 :
  AddKey u key w = (None, u2, w2) ->
  HasKey u (nameKey u key) = false /\
  exists w1, addKeyRepository u (nameKey u key) w = (None, w1) /\
             addKeyDB u (nameKey u key) w1 = (None, u2, w2).
Proof.
  intros H.
  destruct (HasKey u (nameKey u key)) eqn:Hk.
  { unfold AddKey in H. rewrite Hk in H. discriminate. }
  split; [done|].
  destruct (addKeyRepository u (nameKey u key) w) as [[e|] w1] eqn:H1.
  { rewrite (AddKey_repository_fails _ _ _ _ _ Hk H1) in H. discriminate. }
  exists w1. split; [done|].
  destruct (addKeyDB u (nameKey u key) w1) as [[[e|] u3] w3] eqn:H2.
  - destruct (removeKeyRepository u3 (nameKey u key) w3) as [r w4] eqn:H3.
    rewrite (AddKey_persist_fails _ _ _ _ _ _ _ _ _ Hk H1 H2 H3) in H. discriminate.
  - rewrite (AddKey_ok _ _ _ _ _ _ Hk H1 H2) in H. by inversion H.
Qed.

Lemma addKeyRepository_inv u key w r w1 :
  addKeyRepository u key w = (r, w1) ->
  exists r0, repository.AddKey (Email u) (RepoKey key) w = (r0, w1) /\
    r = (fun e => errorString ("failed to add key to git server: " +:+ Error e)) <$> r0.
Proof.
  unfold addKeyRepository, bind, ret. 
  destruct (repository.AddKey _ _ w) as [[e|] w'] eqn:E; intros H; inversion H; subst;
    eexists; split; done.
Qed.

Lemma removeKeyRepository_inv u key w r w1 :
  removeKeyRepository u key w = (r, w1) ->
  exists r0, repository.RemoveKey (Email u) (RepoKey key) w = (r0, w1) /\
    r = (fun e => errorString ("failed to remove the key from git server: " +:+ Error e)) <$> r0.
Proof.
  unfold removeKeyRepository, bind, ret. 
  destruct (repository.RemoveKey _ _ w) as [[e|] w'] eqn:E; intros H; inversion H; subst;
    eexists; split; done.
Qed.

Lemma Update_failed u w e w1 :
  Update u w = (Some e, w1) ->
  users w1 = users w /\ repo w1 = repo w /\ logs w1 = logs w.
Proof.
  unfold Update, bind, ret. destruct (db.Conn w) as [[e0|] w0] eqn:Hc.
  - intros H; inversion H; subst. apply Conn_inv in Hc. unfold after_call in Hc. tauto.
  - intros H. apply Conn_inv in Hc. apply users_Update_failed in H.
    unfold after_call in *. destruct_and?. repeat split; congruence.
Qed.

Lemma Update_ok u w w1 :
  Update u w = (None, w1) ->
  users w1 = <[Email u := u]> (users w) /\ repo w1 = repo w /\ logs w1 = logs w.
Proof.
  unfold Update, bind, ret. destruct (db.Conn w) as [[e0|] w0] eqn:Hc; [done|].
  intros H. apply Conn_inv in Hc. apply users_Update_ok in H.
  unfold after_call in *. destruct_and?. repeat split; congruence.
Qed.

Lemma prefix_append s t : String.prefix s (s +:+ t) = true.
Proof.
  induction s as [|a s IH]; simpl; [by destruct t|].
  destruct (Ascii.ascii_dec a a); [done | congruence].
Qed.

(** ** AddKey *)

(** C1, as amended: when the Repository Manager has accepted the key and
    persisting the user then fails, [AddKey] returns the persistence error
    and calls the Repository Manager once more to deregister the key.  The
    Document Store is as it was before the call, so a record in step with
    the user does not hold the key.  When that deregistration succeeds the
    key is no longer registered. *)
Theorem AddKey_persist_failure_rolls_back u key w w1 e u2 w2 r w3 :
  HasKey u (nameKey u key) = false ->
  addKeyRepository u (nameKey u key) w = (None, w1) ->
  addKeyDB u (nameKey u key) w1 = (Some e, u2, w2) ->
  removeKeyRepository u2 (nameKey u key) w2 = (r, w3) ->
  exists w',
    AddKey u key w = (Some e, u2, w') /\
    repository.registered w1 (Email u) (Name (nameKey u key)) = true /\
    calls w' = calls w2 ++ [RmRemoveKey (Email u) (Name (nameKey u key))] /\
    users w' = users w /\
    (users w !! Email u = Some u ->
     exists rec, users w' !! Email u = Some rec /\ HasKey rec (nameKey u key) = false) /\
    (r = None -> repository.registered w' (Email u) (Name (nameKey u key)) = false).
Proof.
  intros Hk H1 H2 H3.
  eexists. split; [by eapply AddKey_persist_fails|].
  apply addKeyRepository_inv in H1 as (r1 & H1 & Hr1).
  destruct r1; [done|]. apply repository_AddKey_ok in H1 as (Hu1 & _ & _ & Hreg1).
  unfold addKeyDB, bind, ret in H2.
  destruct (Update _ w1) as [r2 w2'] eqn:HU. inversion H2; subst r2 u2 w2'. clear H2.
  apply Update_failed in HU as (Hu2 & _ & _).
  apply removeKeyRepository_inv in H3 as (r3 & H3 & ->). simpl in H3.
  assert (users w3 = users w /\
          calls w3 = calls w2 ++ [RmRemoveKey (Email u) (Name (nameKey u key))] /\
          (r3 = None -> repository.registered w3 (Email u) (Name (nameKey u key)) = false))
    as (Hu3 & Hc3 & Hreg3).
  { destruct r3.
    - apply repository_RemoveKey_failed in H3. unfold after_call in H3.
      destruct_and?. repeat split; [congruence | done | done].
    - apply repository_RemoveKey_ok in H3. destruct_and?.
      repeat split; [congruence | done | done]. }
  assert (users w !! Email u = Some u ->
          exists rec, users w !! Email u = Some rec /\ HasKey rec (nameKey u key) = false)
    as Hrec by (intros ?; by exists u).
  destruct r3; simpl.
  - repeat split; try done. by rewrite Hu3.
  - repeat split; try done. by rewrite Hu3.
Qed.

(** C1, witness: the store refuses the connection, the rollback goes
    through. *)
Lemma AddKey_persist_failure_rolls_back_witness :
  exists w',
    AddKey alice k1 (world_of alice [None; Some netErr]) = (Some netErr, set_Keys alice [k1], w') /\
    users w' = {[ "a@x.com" := alice ]} /\
    repository.registered w' "a@x.com" "k1" = false.
Proof.
  destruct (AddKey_persist_failure_rolls_back alice k1
              (world_of alice [None; Some netErr])
              (addKeyRepository alice k1 (world_of alice [None; Some netErr])).2
              netErr (set_Keys alice [k1])
              (addKeyDB alice k1 (addKeyRepository alice k1 (world_of alice [None; Some netErr])).2).2
              None
              (AddKey alice k1 (world_of alice [None; Some netErr])).2)
    as (w' & HA & _ & _ & Hu & _ & Hr); try (vm_compute; reflexivity).
  exists w'. split; [exact HA|]. split; [exact Hu | exact (Hr eq_refl)].
Defined.

(** C1, counterexample to the claim as stated: the Repository Manager
    accepts the key, the Document Store refuses the connection, and the
    compensating deregistration fails as well.  [AddKey] returns the
    persistence error and the key stays registered. *)
Lemma AddKey_orphan_key_when_rollback_fails :
  let w := world_of alice [None; Some netErr; Some netErr] in
  HasKey alice (nameKey alice k1) = false /\
  (addKeyRepository alice (nameKey alice k1) w).1 = None /\
  (addKeyDB alice (nameKey alice k1) (addKeyRepository alice (nameKey alice k1) w).2).1.1
    = Some netErr /\
  (AddKey alice k1 w).1.1 = Some netErr /\
  repository.registered (AddKey alice k1 w).2 "a@x.com" "k1" = true.
Proof. vm_compute. repeat split. Qed.

(** C3: when the Repository Manager refuses the key, [AddKey] returns
    "failed to add key to git server: " followed by the message of the
    service error.  The user, both stores and the log are as before, and
    the refused call is the only one made: nothing is rolled back. *)
Theorem AddKey_repository_failure u key w e w1 :
  HasKey u (nameKey u key) = false ->
  repository.AddKey (Email u) (RepoKey (nameKey u key)) w = (Some e, w1) ->
  exists err,
    AddKey u key w = (Some err, u, w1) /\
    Error err = "failed to add key to git server: " +:+ Error e /\
    String.prefix "failed to add key to git server" (Error err) = true /\
    users w1 = users w /\ repo w1 = repo w /\ logs w1 = logs w /\
    calls w1 = calls w ++ [RmAddKey (Email u) (Name (nameKey u key))].
Proof.
  intros Hk H.
  exists (errorString ("failed to add key to git server: " +:+ Error e)).
  split.
  { apply AddKey_repository_fails; [done|].
    unfold addKeyRepository, bind, ret. by rewrite H. }
  split; [done|]. split.
  { change ("failed to add key to git server: " +:+ Error e)
      with ("failed to add key to git server" +:+ (": " +:+ Error e)).
    apply prefix_append. }
  apply repository_AddKey_failed in H. unfold after_call in H. simpl in H. tauto.
Qed.

(** C3, witness: the service is down. *)
Lemma AddKey_repository_failure_witness :
  exists err w1,
    AddKey alice k1 (world_of alice [Some netErr]) = (Some err, alice, w1) /\
    Error err = "failed to add key to git server: connection refused" /\
    repo w1 = {[ "a@x.com" := ∅ ]}.
Proof.
  destruct (AddKey_repository_failure alice k1 (world_of alice [Some netErr]) netErr
              (repository.AddKey "a@x.com" (RepoKey k1) (world_of alice [Some netErr])).2)
    as (err & HA & He & _ & _ & Hr & _); try (vm_compute; reflexivity).
  exists err. eexists. split; [exact HA|]. split; [exact He | exact Hr].
Defined.

(** C4: a key that [FindKey] matches by name or by content, once it has
    been given its name, is refused with [ErrUserAlreadyHasKey]; the user
    and the world come back untouched, so no collaborator was called.  As a
    consequence, after an [AddKey] that returned nil, every further
    [AddKey] with the same content, or with the name the key was stored
    under, is refused and changes nothing, and the stored key is in the
    list exactly once. *)
Theorem AddKey_duplicate_rejected :
  (forall u key w k,
     k ∈ Keys u ->
     Name k = Name (nameKey u key) \/ Content k = Content key ->
     AddKey u key w = (Some ErrUserAlreadyHasKey, u, w)) /\
  (forall u key w u1 w1,
     AddKey u key w = (None, u1, w1) ->
     Keys u1 = Keys u ++ [nameKey u key] /\
     length (filter (fun k => matches k (nameKey u key)) (Keys u1)) = 1%nat /\
     forall key2 w2,
       Content key2 = Content key \/ Name key2 = Name (nameKey u key) ->
       AddKey u1 key2 w2 = (Some ErrUserAlreadyHasKey, u1, w2)).
Proof.
  assert (forall u key w k,
     k ∈ Keys u ->
     Name k = Name (nameKey u key) \/ Content k = Content key ->
     AddKey u key w = (Some ErrUserAlreadyHasKey, u, w)) as Hdup.
  { intros u key w k Hin Hm.
    assert (HasKey u (nameKey u key) = true) as Hk.
    { apply HasKey_true, Exists_exists. exists k. split; [done|].
      unfold matches. rewrite nameKey_Content. done. }
    unfold AddKey. by rewrite Hk. }
  split; [exact Hdup|].
  intros u key w u1 w1 H.
  apply AddKey_nil_inv in H as (Hk & w0 & _ & H2).
  unfold addKeyDB, bind, ret in H2.
  destruct (Update _ w0) as [r w'] eqn:HU. inversion H2; subst r u1 w'. clear H2.
  simpl. split; [done|]. split.
  - apply HasKey_false in Hk.
    rewrite filter_app, length_app, (filter_no_match _ _ Hk).
    rewrite filter_cons_True; [|by left]. by rewrite filter_nil.
  - intros key2 w2 Hsame.
    apply (Hdup _ key2 w2 (nameKey u key)).
    + simpl. apply elem_of_app. right. by apply list_elem_of_singleton.
    + destruct Hsame as [Hc | Hn].
      * right. by rewrite nameKey_Content.
      * left. rewrite (nameKey_id _ key2); [done|]. rewrite Hn. apply nameKey_named.
Qed.

(** C4, witness: the key added first, then offered again under another
    name, and another key offered under the first one's name. *)
Lemma AddKey_duplicate_rejected_witness :
  let u1 := set_Keys alice [k1] in
  let w2 := (AddKey alice k1 (world_of alice [])).2 in
  AddKey alice k1 (world_of alice []) = (None, u1, w2) /\
  AddKey u1 (mkKey "other" "ssh-rsa AAA") w2 = (Some ErrUserAlreadyHasKey, u1, w2) /\
  AddKey u1 (mkKey "k1" "ssh-rsa BBB") w2 = (Some ErrUserAlreadyHasKey, u1, w2) /\
  AddKey u1 k1 w2 = (Some ErrUserAlreadyHasKey, u1, w2).
Proof.
  intros u1 w2.
  destruct AddKey_duplicate_rejected as [Hdup Htwice].
  assert (AddKey alice k1 (world_of alice []) = (None, u1, w2)) as Hfirst
    by (vm_compute; reflexivity).
  destruct (Htwice alice k1 (world_of alice []) u1 w2 Hfirst) as (_ & _ & Hagain).
  split; [exact Hfirst|].
  split; [apply Hagain; by left|].
  split; [apply Hagain; by right|].
  apply (Hdup u1 k1 w2 k1); [by apply list_elem_of_singleton | by left].
Defined.

(** C9: four successful calls lead to a user whose only key is named
    "a@x.com-2".  Every key offered to that user without a name is named
    "a@x.com-2" as well, and refused with [ErrUserAlreadyHasKey] whatever
    its content, "ssh-rsa CCC" for one, which no stored key has. *)
Theorem AddKey_generated_name_collides :
  exists u w,
    two_added_first_removed = ([None; None; None; None], u, w) /\
    Keys u = [mkKey "a@x.com-2" "ssh-rsa BBB"] /\
    users w !! "a@x.com" = Some u /\
    Forall (fun k => Content k <> "ssh-rsa CCC") (Keys u) /\
    nameKey u (mkKey "" "ssh-rsa CCC") = mkKey "a@x.com-2" "ssh-rsa CCC" /\
    forall content w',
      AddKey u (mkKey "" content) w' = (Some ErrUserAlreadyHasKey, u, w').
Proof.
  exists (set_Keys alice [mkKey "a@x.com-2" "ssh-rsa BBB"]), two_added_first_removed.2.
  split; [vm_compute; reflexivity|].
  split; [reflexivity|].
  split; [vm_compute; reflexivity|].
  split; [repeat constructor; discriminate|].
  split; [reflexivity|].
  intros content w'. reflexivity.
Qed.

(** ** RemoveKey *)

(** The [copy] and the reslicing of [RemoveKey] delete the element at [i]. *)
Lemma copy_reslice_delete {A} (l : list A) (i : nat) :
  (i < length l)%nat ->
  let keys := take i l ++ copy (drop i l) (drop (i + 1)%nat l) in
  take (length keys - 1)%nat keys = delete i l.
Proof.
  intros Hi keys. subst keys. unfold copy.
  rewrite (take_ge (drop (i + 1)%nat l)) by (rewrite !length_drop; lia).
  rewrite delete_take_drop, (assoc_L (++)).
  replace (i + 1)%nat with (S i) by lia.
  apply take_app_length'.
  rewrite !length_app, !length_drop, length_take. lia.
Qed.

Lemma FindKey_spec u key :
  (FindKey u key = (zeroKey, -1) /\ Forall (fun k => ~ matches k key) (Keys u)) \/
  (exists (n : nat) k, FindKey u key = (k, Z.of_nat n) /\
     Keys u !! n = Some k /\ matches k key /\
     Forall (fun k => ~ matches k key) (take n (Keys u))).
Proof. exact (findKeyFrom_spec (Keys u) 0 key). Qed.

Lemma RemoveKey_not_found u key w :
  Forall (fun k => ~ matches k key) (Keys u) ->
  RemoveKey u key w = (Some ErrKeyNotFound, u, w).
Proof.
  intros Hall. unfold RemoveKey.
  destruct (FindKey_spec u key) as [[-> _] | (n & k & _ & Hl & Hm & _)]; [done|].
  rewrite Forall_forall in Hall. destruct (Hall k); [|done].
  apply list_elem_of_lookup. by exists n.
Qed.

(** With the key found at [n], [RemoveKey] is the deregistration followed,
    when it succeeds, by the update of the user without the key. *)
Lemma RemoveKey_found u key w (n : nat) actual :
  FindKey u key = (actual, Z.of_nat n) ->
  Keys u !! n = Some actual ->
  RemoveKey u key w =
    match removeKeyRepository u actual w with
    | (Some e, w1) => (Some e, u, w1)
    | (None, w1) =>
        let u1 := set_Keys u (delete n (Keys u)) in
        ((Update u1 w1).1, u1, (Update u1 w1).2)
    end.
Proof.
  intros Hf Hl. unfold RemoveKey. rewrite Hf.
  replace (Z.of_nat n <? 0) with false by (symmetry; apply Z.ltb_ge; lia).
  unfold bind at 1.
  destruct (removeKeyRepository u actual w) as [[e|] w1]; [done|].
  rewrite Nat2Z.id, copy_reslice_delete by (by eapply lookup_lt_Some).
  unfold bind, ret. by destruct (Update _ w1).
Qed.

Lemma Update_calls u w r w1 :
  Update u w = (r, w1) -> exists rest, calls w1 = calls w ++ rest.
Proof.
  unfold Update, bind, ret. destruct (db.Conn w) as [[e0|] w0] eqn:Hc.
  - intros H; inversion H; subst. apply Conn_inv in Hc as (_ & _ & _ & _ & Hc). eauto.
  - intros H. apply Conn_inv in Hc as (_ & _ & _ & _ & Hc).
    destruct r.
    + apply users_Update_failed in H as (_ & _ & _ & _ & H).
      rewrite H, Hc, <- (assoc_L (++)). eauto.
    + apply users_Update_ok in H as (_ & _ & _ & H).
      rewrite H, Hc, <- (assoc_L (++)). eauto.
Qed.

(** C5: without a stored key of that name or content [RemoveKey] returns
    [ErrKeyNotFound] and leaves the user and the world as they are.
    Otherwise its first call deregisters the key that was found; when that
    call fails the result is "failed to remove the key from git server: "
    followed by the service error, the user keeps its key list, the
    Document Store is not called and keeps its records.  Hence a change of
    the key list or of the Document Store implies that the deregistration
    succeeded. *)
Theorem RemoveKey_failures :
  (forall u key w,
     Forall (fun k => ~ matches k key) (Keys u) ->
     RemoveKey u key w = (Some ErrKeyNotFound, u, w)) /\
  (forall u key w e w1,
     Exists (fun k => matches k key) (Keys u) ->
     repository.RemoveKey (Email u) (RepoKey (FindKey u key).1) w = (Some e, w1) ->
     RemoveKey u key w =
       (Some (errorString ("failed to remove the key from git server: " +:+ Error e)), u, w1) /\
     users w1 = users w /\
     calls w1 = calls w ++ [RmRemoveKey (Email u) (Name (FindKey u key).1)]) /\
  (forall u key w r u' w',
     Exists (fun k => matches k key) (Keys u) ->
     RemoveKey u key w = (r, u', w') ->
     (exists rest,
        calls w' = calls w ++ RmRemoveKey (Email u) (Name (FindKey u key).1) :: rest) /\
     (Keys u' <> Keys u \/ users w' <> users w ->
      exists w1,
        repository.RemoveKey (Email u) (RepoKey (FindKey u key).1) w = (None, w1))).
Proof.
  split; [exact RemoveKey_not_found|].
  split.
  - intros u key w e w1 Hex H.
    destruct (FindKey_spec u key) as [[_ Hall] | (n & k & Hf & Hl & _ & _)].
    { apply Forall_Exists_neg in Hall. by destruct Hall. }
    rewrite (RemoveKey_found _ _ _ _ _ Hf Hl). rewrite Hf in *. simpl in *.
    unfold removeKeyRepository, bind, ret. rewrite H.
    apply repository_RemoveKey_failed in H as (? & _ & _ & _ & ?). done.
  - intros u key w r u' w' Hex H.
    destruct (FindKey_spec u key) as [[_ Hall] | (n & k & Hf & Hl & _ & _)].
    { apply Forall_Exists_neg in Hall. by destruct Hall. }
    rewrite (RemoveKey_found _ _ _ _ _ Hf Hl) in H. rewrite Hf. simpl.
    unfold removeKeyRepository, bind, ret in H.
    destruct (repository.RemoveKey (Email u) (RepoKey k) w) as [[e|] w1] eqn:HR.
    + inversion H; subst.
      apply repository_RemoveKey_failed in HR as (Hu & _ & _ & _ & Hc).
      split; [by exists [] |]. intros [? | ?]; done.
    + split; [|by eauto].
      apply repository_RemoveKey_ok in HR as (_ & _ & Hc & _). simpl in H.
      destruct (Update (set_Keys u (delete n (Keys u))) w1) as [r1 w2] eqn:HU.
      inversion H; subst. apply Update_calls in HU as [rest HU].
      exists rest. by rewrite HU, Hc, <- (assoc_L (++)).
Qed.

(** C5, witness: an unknown key; a known key while the service is down. *)
Lemma RemoveKey_failures_witness :
  RemoveKey bob (mkKey "tablet" "ssh-rsa DDD") (world_of_bob [])
    = (Some ErrKeyNotFound, bob, world_of_bob []) /\
  exists w1,
    RemoveKey bob kB (world_of_bob [Some netErr])
      = (Some (errorString "failed to remove the key from git server: connection refused"),
         bob, w1) /\
    users w1 = {[ "b@x.com" := bob ]} /\
    calls w1 = [RmRemoveKey "b@x.com" "desktop"].
Proof.
  destruct RemoveKey_failures as (Hnone & Hfail & _).
  split.
  - apply Hnone. repeat constructor; vm_compute; intros [?|?]; discriminate.
  - eexists.
    apply (Hfail bob kB (world_of_bob [Some netErr]) netErr).
    + apply Exists_cons_tl, Exists_cons_hd. by left.
    + vm_compute. reflexivity.
Defined.

(** C7, as amended: a successful [RemoveKey] deletes the one key [FindKey]
    points at, the first that has the name or the content asked for: the
    keys before it and the keys after it stay, in their order, and the
    record persisted is the user with that list.  When no two keys share a
    name or a content the key deleted is the one asked for, so [B] out of
    [A; B; C] leaves [A; C]. *)
Theorem RemoveKey_keeps_order u key w u' w' :
  RemoveKey u key w = (None, u', w') ->
  exists (n : nat) actual,
    FindKey u key = (actual, Z.of_nat n) /\
    Keys u !! n = Some actual /\
    Keys u' = take n (Keys u) ++ drop (S n) (Keys u) /\
    Keys u' `sublist_of` Keys u /\
    users w' !! Email u = Some u' /\
    (distinct_keys (Keys u) -> forall m : nat, Keys u !! m = Some key -> m = n) /\
    (forall A B C,
       Keys u = [A; B; C] -> key = B -> distinct_keys [A; B; C] -> Keys u' = [A; C]).
Proof.
  intros H.
  destruct (FindKey_spec u key) as [[_ Hall] | (n & k & Hf & Hl & Hm & Hbefore)].
  { by rewrite (RemoveKey_not_found _ _ _ Hall) in H. }
  rewrite (RemoveKey_found _ _ _ _ _ Hf Hl) in H.
  destruct (removeKeyRepository u k w) as [[e|] w1] eqn:HR; [done|].
  simpl in H. destruct (Update (set_Keys u (delete n (Keys u))) w1) as [r w2] eqn:HU.
  inversion H; subst r u' w2. clear H.
  apply Update_ok in HU as (HU & _ & _). simpl in *.
  assert (distinct_keys (Keys u) -> forall m : nat, Keys u !! m = Some key -> m = n)
    as Huniq.
  { intros Hd m Hm'. destruct (decide (m = n)) as [|Hne]; [done|].
    destruct (Hd n m k key Hl Hm'); [congruence | done]. }
  exists n, k. repeat split; try done.
  - apply delete_take_drop.
  - apply sublist_delete.
  - rewrite HU. apply lookup_insert_eq.
  - intros A B C HK -> Hd. rewrite HK in *.
    rewrite <- (Huniq Hd 1%nat eq_refl). done.
Qed.

(** C7, witness: [bob] drops the second of the three keys. *)
Lemma RemoveKey_keeps_order_witness :
  exists u' w',
    RemoveKey bob kB (world_of_bob []) = (None, u', w') /\ Keys u' = [kA; kC].
Proof.
  assert (RemoveKey bob kB (world_of_bob [])
          = (None, set_Keys bob [kA; kC], (RemoveKey bob kB (world_of_bob [])).2)) as Hrun
    by (vm_compute; reflexivity).
  destruct (RemoveKey_keeps_order _ _ _ _ _ Hrun) as (n & k & _ & _ & _ & _ & _ & _ & Habc).
  eexists _, _. split; [exact Hrun|].
  apply (Habc kA kB kC); [reflexivity | reflexivity |].
  intros [|[|[|i]]] [|[|[|j]]] ki kj Hi Hj Hne; try done;
    inversion Hi; inversion Hj; subst; intros [?|?]; discriminate.
Defined.

(** C7, counterexample to the claim as stated: [Create] accepts a user
    whose first two keys have the same content; asked to remove the second,
    [RemoveKey] finds the first, returns nil, and the list left is the
    second and the third key. *)
Lemma RemoveKey_removes_the_first_match :
  (Create dan (empty_world [])).1.1 = None /\
  Keys (Create dan (empty_world [])).1.2 = [kA; kA'; kC] /\
  RemoveKey_after_Create.1.1 = None /\
  Keys RemoveKey_after_Create.1.2 = [kA'; kC].
Proof. vm_compute. repeat split. Qed.

(** ** Delete *)

Lemma Delete_connected u w w1 r1 w2 r2 w3 :
  db.Conn w = (None, w1) ->
  db.users_Remove (Email u) w1 = (r1, w2) ->
  repository.RemoveUser (Email u) (logged fmt_database u r1 w2) = (r2, w3) ->
  Delete u w = (None, logged fmt_manager u r2 w3).
Proof.
  intros Hc H1 H2. unfold Delete, bind at 1. rewrite Hc.
  unfold bind at 1. rewrite H1.
  assert (forall (k : M (option error)),
            bind (match r1 with
                  | Some e => log.Errorf fmt_database [Email u; Error e]
                  | None => ret tt
                  end) (fun _ => k) w2 = k (logged fmt_database u r1 w2)) as ->
    by (intros k; by destruct r1).
  unfold bind at 1. rewrite H2. by destruct r2.
Qed.

Lemma logged_calls format u r w : calls (logged format u r w) = calls w.
Proof. by destruct r. Qed.

Lemma logged_users format u r w : users (logged format u r w) = users w.
Proof. by destruct r. Qed.

Lemma logged_repo format u r w : repo (logged format u r w) = repo w.
Proof. by destruct r. Qed.

Lemma logged_logs format u r w :
  logs (logged format u r w) =
  logs w ++ match r with Some e => [LogErrorf format [Email u; Error e]] | None => [] end.
Proof. destruct r; simpl; [done | by rewrite app_nil_r]. Qed.

Lemma users_Remove_inv email w r w1 :
  db.users_Remove email w = (r, w1) ->
  repo w1 = repo w /\ logs w1 = logs w /\ calls w1 = calls w ++ [DbRemove email] /\
  (r = None -> users w1 !! email = None).
Proof.
  destruct r; intros H.
  - apply users_Remove_failed in H as (_ & ? & _ & ? & ?). done.
  - apply users_Remove_ok in H as (Hu & ? & ? & ?). repeat split; try done.
    intros _. rewrite Hu. apply lookup_delete_eq.
Qed.

Lemma repository_RemoveUser_inv email w r w1 :
  repository.RemoveUser email w = (r, w1) ->
  users w1 = users w /\ logs w1 = logs w /\ calls w1 = calls w ++ [RmRemoveUser email] /\
  (r = None -> repo w1 !! email = None).
Proof.
  destruct r; intros H.
  - apply repository_RemoveUser_failed in H as (? & _ & _ & ? & ?). done.
  - apply repository_RemoveUser_ok in H as (? & ? & ? & ?). done.
Qed.

(** What [Delete] has done once connected, by the outcomes [r1] and [r2] of
    the two removals. *)
Lemma Delete_connected_effects u w w1 r1 w2 r2 w3 :
  db.Conn w = (None, w1) ->
  db.users_Remove (Email u) w1 = (r1, w2) ->
  repository.RemoveUser (Email u) (logged fmt_database u r1 w2) = (r2, w3) ->
  let w' := logged fmt_manager u r2 w3 in
  calls w' = calls w ++ [DbConn; DbRemove (Email u); RmRemoveUser (Email u)] /\
  logs w' = logs w
    ++ match r1 with Some e => [LogErrorf fmt_database [Email u; Error e]] | None => [] end
    ++ match r2 with Some e => [LogErrorf fmt_manager [Email u; Error e]] | None => [] end /\
  (r1 = None -> users w' !! Email u = None) /\
  (r2 = None -> repo w' !! Email u = None).
Proof.
  intros Hc H1 H2 w'. subst w'.
  apply Conn_inv in Hc as (_ & _ & _ & Hl0 & Hc0).
  apply users_Remove_inv in H1 as (_ & Hl1 & Hc1 & Hgone1).
  apply repository_RemoveUser_inv in H2 as (Hu2 & Hl2 & Hc2 & Hgone2).
  rewrite logged_calls, logged_logs, logged_users, logged_repo.
  rewrite logged_calls in Hc2. rewrite logged_logs in Hl2. rewrite logged_users in Hu2.
  repeat split.
  - rewrite Hc2, Hc1, Hc0, <- !(assoc_L (++)). done.
  - rewrite Hl2, Hl1, Hl0, <- !(assoc_L (++)). done.
  - intros ?. rewrite Hu2. auto.
  - done.
Qed.

(** C6, as amended: once [db.Conn] has given a connection, [Delete] calls
    the Document Store to remove the record and then the Repository Manager
    to remove the user, whatever the first call returned; each failure adds
    its line to the log, and the result is nil.  A removal that succeeded
    has taken effect.  When [db.Conn] fails, [Delete] returns that error
    and calls neither removal: the stores and the log are as before. *)
Theorem Delete_best_effort u w :
  (forall w1 r1 w2 r2 w3,
     db.Conn w = (None, w1) ->
     db.users_Remove (Email u) w1 = (r1, w2) ->
     repository.RemoveUser (Email u) (logged fmt_database u r1 w2) = (r2, w3) ->
     exists w',
       Delete u w = (None, w') /\
       calls w' = calls w ++ [DbConn; DbRemove (Email u); RmRemoveUser (Email u)] /\
       logs w' = logs w
         ++ match r1 with Some e => [LogErrorf fmt_database [Email u; Error e]] | None => [] end
         ++ match r2 with Some e => [LogErrorf fmt_manager [Email u; Error e]] | None => [] end /\
       (r1 = None -> users w' !! Email u = None) /\
       (r2 = None -> repo w' !! Email u = None)) /\
  (forall e w1,
     db.Conn w = (Some e, w1) ->
     Delete u w = (Some e, w1) /\
     calls w1 = calls w ++ [DbConn] /\
     users w1 = users w /\ repo w1 = repo w /\ logs w1 = logs w).
Proof.
  split.
  - intros w1 r1 w2 r2 w3 Hc H1 H2. exists (logged fmt_manager u r2 w3).
    split; [by eapply Delete_connected|].
    by eapply Delete_connected_effects.
  - intros e w1 Hc. split.
    + unfold Delete, bind, ret. by rewrite Hc.
    + apply Conn_inv in Hc as (? & ? & _ & ? & ?). done.
Qed.

(** C6, witness: the store has lost the record, the manager still removes
    the user; and a call without connection. *)
Lemma Delete_best_effort_witness :
  (exists w',
     Delete alice (mkWorld ∅ {[ "a@x.com" := ∅ ]} ∅ [] [] []) = (None, w') /\
     calls w' = [DbConn; DbRemove "a@x.com"; RmRemoveUser "a@x.com"] /\
     logs w' = [LogErrorf fmt_database ["a@x.com"; "not found"]] /\
     repo w' !! "a@x.com" = None) /\
  (exists w1,
     Delete alice (world_of alice [Some netErr]) = (Some netErr, w1) /\
     calls w1 = [DbConn] /\ users w1 !! "a@x.com" = Some alice).
Proof.
  split.
  - pose (w := mkWorld ∅ {[ "a@x.com" := ∅ ]} ∅ [] [] []).
    destruct (proj1 (Delete_best_effort alice w) (db.Conn w).2
                (Some db.ErrNotFound) (db.users_Remove "a@x.com" (db.Conn w).2).2
                None (Delete alice w).2)
      as (w' & HD & Hc & Hl & _ & Hr); try (vm_compute; reflexivity).
    exists w'. split; [exact HD|]. split; [exact Hc|]. split; [exact Hl|].
    exact (Hr eq_refl).
  - pose (w := world_of alice [Some netErr]).
    destruct (proj2 (Delete_best_effort alice w) netErr (db.Conn w).2)
      as (HD & Hc & Hu & _); [vm_compute; reflexivity|].
    exists (db.Conn w).2. split; [exact HD|]. split; [exact Hc|].
    rewrite Hu. reflexivity.
Defined.

(** C6, counterexample to the claim as stated: [db.Conn] fails, [Delete]
    returns that error, and neither removal is attempted. *)
Lemma Delete_without_connection :
  Delete alice (world_of alice [Some netErr])
  = (Some netErr,
     mkWorld {[ "a@x.com" := alice ]} {[ "a@x.com" := ∅ ]} ∅ [] [] [DbConn]).
Proof. vm_compute. reflexivity. Qed.

(** ** Create *)

Lemma resolveQuota_world u w : (resolveQuota u w).2 = w.
Proof.
  unfold resolveQuota, config.GetInt, bind, ret.
  destruct (quota.Limit (Quota u) =? 0); [|done].
  destruct (conf w !! _) as [limit|]; simpl; [|done].
  by destruct (limit >? -1).
Qed.

Lemma resolveQuota_Email u w : Email (resolveQuota u w).1 = Email u.
Proof.
  unfold resolveQuota, config.GetInt, bind, ret.
  destruct (quota.Limit (Quota u) =? 0); [|done].
  destruct (conf w !! _) as [limit|]; simpl; [|done].
  by destruct (limit >? -1).
Qed.

Lemma repository_AddKey_users email key w r w1 :
  repository.AddKey email key w = (r, w1) -> users w1 = users w /\ logs w1 = logs w.
Proof.
  destruct r; intros H.
  - apply repository_AddKey_failed in H as (? & _ & _ & ? & _). done.
  - apply repository_AddKey_ok in H as (? & ? & _). done.
Qed.

Lemma addKeysRepository_users u keys : forall w r w1,
  addKeysRepository u keys w = (r, w1) -> users w1 = users w /\ logs w1 = logs w.
Proof.
  induction keys as [|key keys IH]; intros w r w1 H; simpl in H.
  - by inversion H.
  - unfold bind in H.
    destruct (addKeyRepository u key w) as [r0 w0] eqn:H0.
    apply addKeyRepository_inv in H0 as (r' & H0 & ->).
    apply repository_AddKey_users in H0 as [Hu Hl].
    destruct r' as [e|]; simpl in H.
    + inversion H; by subst.
    + apply IH in H as [? ?]. split; congruence.
Qed.

Lemma createOnRepositoryManager_users u w r w1 :
  createOnRepositoryManager u w = (r, w1) -> users w1 = users w /\ logs w1 = logs w.
Proof.
  unfold createOnRepositoryManager, bind, ret.
  destruct (repository.CreateUser (Email u) w) as [[e|] w0] eqn:H0;
    apply repository_CreateUser_users in H0 as [Hu Hl]; intros H.
  - inversion H; by subst.
  - apply addKeysRepository_users in H as [? ?]. split; congruence.
Qed.

(** [Create] once connected, by the outcome of the insertion and of the
    registration. *)
Lemma Create_connected u w w1 :
  db.Conn w = (None, w1) ->
  let u1 := (resolveQuota u w1).1 in
  Create u w =
    match db.users_Insert u1 w1 with
    | (Some e, w2) => (Some e, u1, w2)
    | (None, w2) =>
        match createOnRepositoryManager u1 w2 with
        | (Some e, w3) => (Some e, u1, (Delete u1 w3).2)
        | (None, w3) => (None, u1, w3)
        end
    end.
Proof.
  intros Hc u1. unfold Create, bind at 1. rewrite Hc.
  unfold bind at 1.
  pose proof (resolveQuota_world u w1) as Hw.
  destruct (resolveQuota u w1) as [u1' w1'] eqn:HQ. simpl in Hw. subst w1' u1. simpl.
  unfold bind at 1. destruct (db.users_Insert u1' w1) as [[e|] w2]; [done|].
  unfold bind at 1. destruct (createOnRepositoryManager u1' w2) as [[e|] w3]; [|done].
  unfold bind, ret. by destruct (Delete u1' w3).
Qed.

(** C2, as amended: the record is in the Document Store and the
    registration with the Repository Manager then fails, be it in
    [CreateUser] or for one of the keys.  [Create] runs [Delete] and
    returns the error of the registration, whatever [Delete] does.  Once
    [Delete] has its connection: when the removal of the record succeeds
    the Document Store has no record for the user; when it fails, the
    failure is in the log and the record stays.  When [Delete] gets no
    connection, that failure is dropped: nothing is logged, no removal is
    called and the record stays. *)
Theorem Create_repository_failure_removes_record u w w1 w2 e w3 :
  db.Conn w = (None, w1) ->
  let u1 := (resolveQuota u w1).1 in
  db.users_Insert u1 w1 = (None, w2) ->
  createOnRepositoryManager u1 w2 = (Some e, w3) ->
  exists w',
    Create u w = (Some e, u1, w') /\
    users w3 !! Email u = Some u1 /\
    w' = (Delete u1 w3).2 /\
    (forall w4 w5,
       db.Conn w3 = (None, w4) ->
       db.users_Remove (Email u) w4 = (None, w5) ->
       users w' !! Email u = None) /\
    (forall w4 e' w5,
       db.Conn w3 = (None, w4) ->
       db.users_Remove (Email u) w4 = (Some e', w5) ->
       LogErrorf fmt_database [Email u; Error e'] ∈ logs w' /\
       users w' !! Email u = Some u1) /\
    (forall e' w4,
       db.Conn w3 = (Some e', w4) ->
       w' = w4 /\
       logs w' = logs w3 /\
       calls w' = calls w3 ++ [DbConn] /\
       users w' !! Email u = Some u1).
Proof.
  intros Hc u1 Hi Hrm.
  assert (Email u1 = Email u) as HE by apply resolveQuota_Email.
  assert (users w3 !! Email u = Some u1) as Hstored.
  { apply createOnRepositoryManager_users in Hrm as [-> _].
    apply users_Insert_ok in Hi as (-> & _). rewrite HE. apply lookup_insert_eq. }
  exists (Delete u1 w3).2. split.
  { rewrite (Create_connected _ _ _ Hc). fold u1. by rewrite Hi, Hrm. }
  split; [done|]. split; [done|].
  split; [|split].
  - intros w4 w5 Hc3 Hr. rewrite <- HE in *.
    destruct (repository.RemoveUser (Email u1) (logged fmt_database u1 None w5))
      as [r2 w6] eqn:H2.
    rewrite (Delete_connected _ _ _ _ _ _ _ Hc3 Hr H2).
    destruct (Delete_connected_effects _ _ _ _ _ _ _ Hc3 Hr H2) as (_ & _ & Hgone & _).
    simpl. auto.
  - intros w4 e' w5 Hc3 Hr. rewrite <- HE in *.
    destruct (repository.RemoveUser (Email u1) (logged fmt_database u1 (Some e') w5))
      as [r2 w6] eqn:H2.
    rewrite (Delete_connected _ _ _ _ _ _ _ Hc3 Hr H2).
    destruct (Delete_connected_effects _ _ _ _ _ _ _ Hc3 Hr H2) as (_ & Hl & _).
    simpl. split.
    + rewrite Hl, !elem_of_app. right. left. apply list_elem_of_here.
    + rewrite logged_users.
      apply repository_RemoveUser_inv in H2 as (-> & _). rewrite logged_users.
      apply users_Remove_failed in Hr as (-> & _).
      apply Conn_inv in Hc3 as (-> & _). done.
  - intros e' w4 Hc3.
    assert (Delete u1 w3 = (Some e', w4)) as ->.
    { unfold Delete, bind, ret. by rewrite Hc3. }
    simpl. apply Conn_inv in Hc3 as (Hu & _ & _ & Hl & Hcalls).
    repeat split; try done. by rewrite Hu.
Qed.

(** C2, witness: the manager creates the user and then refuses the key;
    the record inserted a moment before is gone. *)
Lemma Create_repository_failure_removes_record_witness :
  exists u1 w',
    Create carol (empty_world [None; None; None; Some netErr])
      = (Some (errorString "failed to add key to git server: connection refused"), u1, w') /\
    users w' !! "c@x.com" = None.
Proof.
  pose (w := empty_world [None; None; None; Some netErr]).
  pose (u1 := set_Quota carol quota.Unlimited).
  pose (w3 := (createOnRepositoryManager u1 (db.users_Insert u1 (db.Conn w).2).2).2).
  destruct (Create_repository_failure_removes_record carol w
              (db.Conn w).2 (db.users_Insert u1 (db.Conn w).2).2
              (errorString "failed to add key to git server: connection refused") w3)
    as (w' & HC & _ & _ & Hgone & _); try (vm_compute; reflexivity).
  exists u1, w'. split; [exact HC|].
  apply (Hgone (db.Conn w3).2 (db.users_Remove "c@x.com" (db.Conn w3).2).2);
    vm_compute; reflexivity.
Defined.

(** C2, counterexample to the claim as stated: the key is refused, and
    [Delete] gets no connection.  [Create] returns the error of the
    registration; nothing is logged, no removal is called, and the record
    inserted a moment before stays in the Document Store. *)
Lemma Create_compensation_without_connection :
  let w := empty_world [None; None; None; Some netErr; Some netErr] in
  (Create carol w).1.1
    = Some (errorString "failed to add key to git server: connection refused") /\
  logs (Create carol w).2 = [] /\
  calls (Create carol w).2
    = [DbConn; DbInsert "c@x.com"; RmCreateUser "c@x.com"; RmAddKey "c@x.com" "k1"; DbConn] /\
  users (Create carol w).2 !! "c@x.com" = Some (set_Quota carol quota.Unlimited).
Proof. vm_compute. repeat split. Qed.

(** C8: [Create], once connected, leaves the user with the configured
    [quota:apps-per-user] as limit when the limit was unset (zero) and the
    setting is present and not negative, with [quota.Unlimited] when the
    setting is absent, and with its own quota when the limit was set.  When
    [Create] returns nil the record in the Document Store is that user. *)
Theorem Create_resolves_quota u w w1 r u' w' :
  db.Conn w = (None, w1) ->
  Create u w = (r, u', w') ->
  (quota.Limit (Quota u) = 0 ->
   (forall limit,
      conf w !! "quota:apps-per-user" = Some limit -> 0 <= limit ->
      quota.Limit (Quota u') = limit) /\
   (conf w !! "quota:apps-per-user" = None -> Quota u' = quota.Unlimited)) /\
  (quota.Limit (Quota u) <> 0 -> Quota u' = Quota u) /\
  (r = None -> users w' !! Email u = Some u').
Proof.
  intros Hc H. rewrite (Create_connected _ _ _ Hc) in H.
  pose proof (resolveQuota_Email u w1) as HE.
  assert (u' = (resolveQuota u w1).1) as ->.
  { destruct (db.users_Insert _ w1) as [[?|] w2]; [by inversion H|].
    destruct (createOnRepositoryManager _ w2) as [[?|] w3]; by inversion H. }
  assert (conf w1 = conf w) as Hconf by (by apply Conn_inv in Hc as (_ & _ & ? & _)).
  split; [|split].
  - intros H0. unfold resolveQuota. rewrite H0. simpl.
    unfold bind, config.GetInt, ret. rewrite Hconf. split.
    + intros limit -> Hpos. simpl.
      replace (limit >? -1) with true by (symmetry; apply Z.gtb_lt; lia). done.
    + by intros ->.
  - intros Hne. unfold resolveQuota.
    apply Z.eqb_neq in Hne. by rewrite Hne.
  - intros ->.
    destruct (db.users_Insert _ w1) as [[?|] w2] eqn:Hi; [by inversion H|].
    destruct (createOnRepositoryManager _ w2) as [[?|] w3] eqn:Hrm; inversion H; subst.
    apply createOnRepositoryManager_users in Hrm as [-> _].
    apply users_Insert_ok in Hi as (-> & _). rewrite HE. apply lookup_insert_eq.
Qed.

(** C8, witness: five applications per user are configured. *)
Lemma Create_resolves_quota_witness :
  exists u' w',
    Create carol world_limit_5 = (None, u', w') /\
    quota.Limit (Quota u') = 5 /\
    users w' !! "c@x.com" = Some u'.
Proof.
  pose (u' := set_Quota carol (quota.mkQuota 5 0)).
  assert (Create carol world_limit_5 = (None, u', (Create carol world_limit_5).2)) as HC
    by (vm_compute; reflexivity).
  destruct (Create_resolves_quota carol world_limit_5 (db.Conn world_limit_5).2 _ _ _
              eq_refl HC) as ((H5 & _) & _ & Hrec); [reflexivity|].
  eexists _, _. split; [exact HC|]. split.
  - apply H5; [reflexivity | lia].
  - exact (Hrec eq_refl).
Defined.

(** ** GetUserByEmail *)

(** C10, as amended: for an email that passes validation, once [db.Conn]
    has given a connection, every failure of the query, an absent record
    included, comes back as [ErrUserNotFound]; an error of [db.Conn] itself
    comes back as it is. *)
Theorem GetUserByEmail_errors (ValidateEmail : string -> bool) email w :
  ValidateEmail email = true ->
  (forall w1 e w2,
     db.Conn w = (None, w1) ->
     db.users_FindOne email w1 = (inl e, w2) ->
     GetUserByEmail ValidateEmail email w = (None, Some ErrUserNotFound, w2)) /\
  (forall w1,
     db.Conn w = (None, w1) ->
     users w !! email = None ->
     (GetUserByEmail ValidateEmail email w).1 = (None, Some ErrUserNotFound)) /\
  (forall e w1,
     db.Conn w = (Some e, w1) ->
     GetUserByEmail ValidateEmail email w = (None, Some e, w1)).
Proof.
  intros Hv.
  assert (forall w1 e w2,
     db.Conn w = (None, w1) ->
     db.users_FindOne email w1 = (inl e, w2) ->
     GetUserByEmail ValidateEmail email w = (None, Some ErrUserNotFound, w2)) as Hq.
  { intros w1 e w2 Hc Hf. unfold GetUserByEmail. rewrite Hv. cbn [negb].
    unfold bind, ret. by rewrite Hc, Hf. }
  split; [exact Hq|]. split.
  - intros w1 Hc Hnone.
    destruct (db.users_FindOne email w1) as [[e|u] w2] eqn:Hf.
    { by rewrite (Hq _ _ _ Hc Hf). }
    exfalso. apply Conn_inv in Hc as (Hu & _).
    unfold db.users_FindOne in Hf.
    apply external_inv in Hf as [(e & ? & _) | (w0 & (Hu0 & _) & Hrun)]; [done|].
    cbv beta in Hrun. rewrite Hu0, Hu, Hnone in Hrun. done.
  - intros e w1 Hc. unfold GetUserByEmail. rewrite Hv. cbn [negb].
    unfold bind, ret. by rewrite Hc.
Qed.

(** C10, witness: the query times out; the record is absent; the
    connection is refused. *)
Lemma GetUserByEmail_errors_witness :
  (GetUserByEmail (fun _ => true) "a@x.com"
     (world_of alice [None; Some (errorString "i/o timeout")])).1
    = (None, Some ErrUserNotFound) /\
  (GetUserByEmail (fun _ => true) "a@x.com" (empty_world [])).1
    = (None, Some ErrUserNotFound) /\
  (GetUserByEmail (fun _ => true) "a@x.com" (world_of alice [Some netErr])).1
    = (None, Some netErr).
Proof.
  split; [|split].
  - set (w := world_of alice [None; Some (errorString "i/o timeout")]).
    destruct (GetUserByEmail_errors (fun _ => true) "a@x.com" w eq_refl) as (Hq & _ & _).
    rewrite (Hq (db.Conn w).2 (errorString "i/o timeout")
               (db.users_FindOne "a@x.com" (db.Conn w).2).2);
      [reflexivity | vm_compute; reflexivity | vm_compute; reflexivity].
  - destruct (GetUserByEmail_errors (fun _ => true) "a@x.com" (empty_world []) eq_refl)
      as (_ & Habs & _).
    apply (Habs (db.Conn (empty_world [])).2); vm_compute; reflexivity.
  - set (w := world_of alice [Some netErr]).
    destruct (GetUserByEmail_errors (fun _ => true) "a@x.com" w eq_refl) as (_ & _ & Hconn).
    rewrite (Hconn netErr (db.Conn w).2); [reflexivity | vm_compute; reflexivity].
Defined.

(** C10, counterexample to the claim as stated: the store is unreachable
    when the connection is opened, and the caller gets that error, not
    [ErrUserNotFound], although the email is valid and the record exists. *)
Lemma GetUserByEmail_unreachable_store :
  users (world_of alice [Some netErr]) !! "a@x.com" = Some alice /\
  (GetUserByEmail (fun _ => true) "a@x.com" (world_of alice [Some netErr])).1
    = (None, Some netErr) /\
  netErr <> ErrUserNotFound.
Proof. split; [vm_compute; reflexivity|]. split; [vm_compute; reflexivity | discriminate]. Qed.

(** * Further properties *)

(** ** FindKey and HasKey *)

(** X1: [FindKey] returns the first stored key with the name or the content
    asked for, and its index, which lies within the list; it returns the
    zero key and -1 exactly when no stored key has that name or content. *)
Theorem FindKey_first_match u key :
  (FindKey u key = (zeroKey, -1) /\
   Forall (fun k => ~ matches k key) (Keys u)) \/
  (exists (n : nat) k,
     FindKey u key = (k, Z.of_nat n) /\
     (n < length (Keys u))%nat /\
     Keys u !! n = Some k /\ matches k key /\
     forall (j : nat) k', (j < n)%nat -> Keys u !! j = Some k' -> ~ matches k' key).
Proof.
  destruct (FindKey_spec u key) as [H | (n & k & Hf & Hl & Hm & Hall)]; [by left|].
  right. exists n, k. repeat split; try done.
  - by eapply lookup_lt_Some.
  - intros j k' Hj Hl'. rewrite Forall_forall in Hall. apply Hall.
    apply list_elem_of_lookup. exists j. rewrite lookup_take_lt; done.
Qed.

(** X2: [HasKey] is true exactly when some stored key has the name or the
    content of the key asked for.  Hence every stored key is found, and a
    user without keys has none. *)
Theorem HasKey_iff_some_match u key :
  (HasKey u key = true <-> exists k, k ∈ Keys u /\ matches k key) /\
  (key ∈ Keys u -> HasKey u key = true) /\
  (Keys u = [] -> HasKey u key = false).
Proof.
  assert (HasKey u key = true <-> exists k, k ∈ Keys u /\ matches k key) as Hiff.
  { rewrite HasKey_true, Exists_exists. done. }
  split; [exact Hiff|]. split.
  - intros Hin. apply Hiff. exists key. split; [done | by left].
  - intros Hnil. apply HasKey_false. rewrite Hnil. constructor.
Qed.

(** X2, witness: a stored key is found again; another one with the same
    content under a new name is found as well. *)
Lemma HasKey_iff_some_match_witness :
  HasKey bob kB = true /\ HasKey bob (mkKey "spare" "ssh-rsa CCC") = true.
Proof.
  split.
  - apply (proj1 (proj2 (HasKey_iff_some_match bob kB))).
    apply list_elem_of_In. simpl. tauto.
  - apply (proj2 (proj1 (HasKey_iff_some_match bob (mkKey "spare" "ssh-rsa CCC")))).
    exists kC. split; [apply list_elem_of_In; simpl; tauto | by right].
Defined.

(** ** The names AddKey generates *)

Lemma append_cancel_l (s a b : string) : s +:+ a = s +:+ b -> a = b.
Proof. induction s as [|c s IH]; simpl; [done|]. intros [= H]. auto. Qed.

Lemma itoa_inj a b : 0 < a -> 0 < b -> itoa a = itoa b -> a = b.
Proof.
  unfold itoa. intros Ha Hb H.
  assert (forall z, 0 < z ->
            NilZero.int_of_string (NilZero.string_of_int (Z.to_int z)) = Some (Z.to_int z))
    as Hisi.
  { intros z Hz. destruct z as [|p|p]; try lia.
    apply NilZero.isi; simpl; intros [= Hn];
      by apply DecimalPos.Unsigned.to_uint_nonnil in Hn. }
  apply DecimalZ.to_int_inj.
  apply (f_equal NilZero.int_of_string) in H.
  rewrite !Hisi in H by done. congruence.
Qed.

Lemma itoa_parses n :
  0 < n -> NilZero.int_of_string (itoa n) = Some (Z.to_int n).
Proof.
  intros Hn. unfold itoa.
  destruct n as [|p|p]; try lia.
  apply NilZero.isi; simpl.
  - intros [= H]. by apply DecimalPos.Unsigned.to_uint_nonnil in H.
  - discriminate.
Qed.

(** X3: a key without a name is named by the email, a hyphen and the
    decimal numeral, without leading zeros, of the number of stored keys
    plus one; its content is
    kept and the name is not empty.  Names generated for the same email at
    different numbers of keys differ.  A key that comes with a name keeps
    it. *)
Theorem nameKey_generated_names u u' key key' :
  Name key = "" -> Name key' = "" ->
  Email u = Email u' ->
  length (Keys u) <> length (Keys u') ->
  (exists digits,
     Name (nameKey u key) = Email u +:+ "-" +:+ digits /\
     NilZero.int_of_string digits = Some (Z.to_int (Z.of_nat (length (Keys u)) + 1)) /\
     Z.of_int <$> NilZero.int_of_string digits = Some (Z.of_nat (length (Keys u)) + 1)) /\
  Name (nameKey u key) <> Name (nameKey u' key') /\
  Content (nameKey u key) = Content key /\
  Name (nameKey u key) <> "" /\
  forall named, Name named <> "" -> nameKey u named = named.
Proof.
  intros Hn Hn' HE Hlen. split; [|split; [|split; [|split]]].
  - exists (itoa (Z.of_nat (length (Keys u)) + 1)). split.
    + unfold nameKey. by rewrite Hn.
    + split; [apply itoa_parses; lia|].
      rewrite itoa_parses by lia. simpl. f_equal. apply DecimalZ.of_to.
  - unfold nameKey. rewrite Hn, Hn'. simpl. rewrite HE. intros H.
    apply append_cancel_l in H. injection H as H.
    apply itoa_inj in H; lia.
  - apply nameKey_Content.
  - apply nameKey_named.
  - intros named. apply nameKey_id.
Qed.

(** X3, witness: the first and the second key of [alice]. *)
Lemma nameKey_generated_names_witness :
  Name (nameKey alice (mkKey "" "ssh-rsa AAA")) = "a@x.com-1" /\
  Name (nameKey alice (mkKey "" "ssh-rsa AAA"))
  <> Name (nameKey (set_Keys alice [k1]) (mkKey "" "ssh-rsa BBB")).
Proof.
  destruct (nameKey_generated_names alice (set_Keys alice [k1])
              (mkKey "" "ssh-rsa AAA") (mkKey "" "ssh-rsa BBB"))
    as (_ & Hdiff & _); [reflexivity | reflexivity | reflexivity | simpl; lia |].
  split; [reflexivity | exact Hdiff].
Defined.

(** ** AddKey and RemoveKey keep the key list well formed *)

Lemma matches_sym k key : matches k key -> matches key k.
Proof. unfold matches. intros [H | H]; [left | right]; done. Qed.

Lemma distinct_keys_snoc keys k :
  distinct_keys keys ->
  Forall (fun k' => ~ matches k' k) keys ->
  distinct_keys (keys ++ [k]).
Proof.
  intros Hd Hall i j ki kj Hi Hj Hne.
  rewrite Forall_forall in Hall.
  destruct (decide (i < length keys)%nat) as [Hil | Hil];
    destruct (decide (j < length keys)%nat) as [Hjl | Hjl].
  - rewrite lookup_app_l in Hi, Hj by done. by eapply Hd.
  - rewrite lookup_app_l in Hi by done. rewrite lookup_app_r in Hj by lia.
    apply list_lookup_singleton_Some in Hj as [_ <-].
    apply Hall, list_elem_of_lookup. eauto.
  - rewrite lookup_app_l in Hj by done. rewrite lookup_app_r in Hi by lia.
    apply list_lookup_singleton_Some in Hi as [_ <-].
    intros Hm. apply matches_sym in Hm. revert Hm.
    apply Hall, list_elem_of_lookup. eauto.
  - rewrite lookup_app_r in Hi, Hj by lia.
    apply list_lookup_singleton_Some in Hi as [Hi _].
    apply list_lookup_singleton_Some in Hj as [Hj _]. lia.
Qed.

Lemma distinct_keys_delete keys (n : nat) :
  distinct_keys keys -> distinct_keys (delete n keys).
Proof.
  intros Hd i j ki kj Hi Hj Hne.
  assert (forall (m : nat) k, delete n keys !! m = Some k ->
            keys !! (if decide (m < n)%nat then m else S m) = Some k) as Hback.
  { intros m k Hm. destruct (decide (m < n)%nat).
    - by rewrite list_lookup_delete_lt in Hm by lia.
    - by rewrite list_lookup_delete_ge in Hm by lia. }
  apply Hback in Hi, Hj.
  eapply Hd; [exact Hi | exact Hj |].
  repeat case_decide; lia.
Qed.

(** The user [AddKey] leaves behind: the one it got, or that one with the
    named key appended, which no stored key matched. *)
Lemma AddKey_user u key w r u' w' :
  AddKey u key w = (r, u', w') ->
  u' = u \/
  (HasKey u (nameKey u key) = false /\
   u' = set_Keys u (Keys u ++ [nameKey u key])).
Proof.
  intros H.
  destruct (HasKey u (nameKey u key)) eqn:Hk.
  { unfold AddKey in H. rewrite Hk in H. inversion H. by left. }
  destruct (addKeyRepository u (nameKey u key) w) as [[e|] w1] eqn:H1.
  { rewrite (AddKey_repository_fails _ _ _ _ _ Hk H1) in H. inversion H. by left. }
  right. split; [done|].
  destruct (addKeyDB u (nameKey u key) w1) as [[r2 u2] w2] eqn:H2.
  assert (u2 = set_Keys u (Keys u ++ [nameKey u key])) as Hu2.
  { unfold addKeyDB, bind, ret in H2. destruct (Update _ w1). by inversion H2. }
  destruct r2 as [e|].
  - destruct (removeKeyRepository u2 (nameKey u key) w2) as [r3 w3] eqn:H3.
    rewrite (AddKey_persist_fails _ _ _ _ _ _ _ _ _ Hk H1 H2 H3) in H.
    inversion H. congruence.
  - rewrite (AddKey_ok _ _ _ _ _ _ Hk H1 H2) in H. inversion H. congruence.
Qed.

(** X4: whatever [AddKey] returns, it keeps the email of the user, and a
    key list in which no two keys share a name or a content stays so: the
    list is the old one, possibly with the new key at its end. *)
Theorem AddKey_keeps_keys_distinct u key w r u' w' :
  distinct_keys (Keys u) ->
  AddKey u key w = (r, u', w') ->
  distinct_keys (Keys u') /\
  Email u' = Email u /\
  (Keys u' = Keys u \/ Keys u' = Keys u ++ [nameKey u key]).
Proof.
  intros Hd H. apply AddKey_user in H as [-> | [Hk ->]].
  - repeat split; [done | by left].
  - simpl. repeat split; [|by right].
    apply distinct_keys_snoc; [done | by apply HasKey_false].
Qed.

(** X4, witness: [bob] gets a fourth key. *)
Lemma AddKey_keeps_keys_distinct_witness :
  distinct_keys (Keys (AddKey bob kD (world_of_bob [])).1.2).
Proof.
  assert (distinct_keys (Keys bob)) as Hd.
  { intros [|[|[|i]]] [|[|[|j]]] ki kj Hi Hj Hne; try done;
      inversion Hi; inversion Hj; subst; intros [?|?]; discriminate. }
  destruct (AddKey bob kD (world_of_bob [])) as [[r u'] w'] eqn:HA.
  exact (proj1 (AddKey_keeps_keys_distinct bob kD (world_of_bob []) r u' w' Hd HA)).
Defined.

Lemma repository_AddKey_body email key w w1 :
  repository.AddKey email key w = (None, w1) ->
  exists ks, repo w1 !! email = Some ks /\
             ks !! repository.Name key = Some (repository.Body key).
Proof.
  unfold repository.AddKey. intros H. op_inv H; try done.
  eexists. split; [apply lookup_insert_eq|]. apply lookup_insert_eq.
Qed.

(** X5: after an [AddKey] that returned nil the new key is the last one of
    the list, the Document Store holds the user with that list, and the
    Repository Manager has the content of the key registered under its
    name: both stores agree on the key. *)
Theorem AddKey_success_in_both_stores u key w u' w' :
  AddKey u key w = (None, u', w') ->
  Keys u' = Keys u ++ [nameKey u key] /\
  users w' !! Email u = Some u' /\
  (exists ks, repo w' !! Email u = Some ks /\
              ks !! Name (nameKey u key) = Some (Content key)) /\
  calls w' = calls w
    ++ [RmAddKey (Email u) (Name (nameKey u key)); DbConn; DbUpdate (Email u)].
Proof.
  intros H. apply AddKey_nil_inv in H as (Hk & w1 & H1 & H2).
  apply addKeyRepository_inv in H1 as (r1 & H1 & Hr1). destruct r1; [done|].
  pose proof (repository_AddKey_body _ _ _ _ H1) as (ks & Hks & Hbody).
  apply repository_AddKey_ok in H1 as (_ & _ & Hc1 & _).
  unfold addKeyDB, bind, ret in H2.
  destruct (Update _ w1) as [r2 w2] eqn:HU. inversion H2; subst r2 u' w2. clear H2.
  pose proof HU as HU'. apply Update_ok in HU' as (Hu & Hr & _).
  unfold Update, bind, ret in HU.
  destruct (db.Conn w1) as [[?|] w0] eqn:Hc; [done|].
  apply Conn_inv in Hc as (_ & _ & _ & _ & Hc0).
  apply users_Update_ok in HU as (_ & _ & _ & Hc2). simpl in *.
  repeat split.
  - rewrite Hu. apply lookup_insert_eq.
  - exists ks. rewrite Hr. split; [done|]. by rewrite nameKey_Content in Hbody.
  - rewrite Hc2, Hc0, Hc1, <- !(assoc_L (++)). done.
Qed.

(** X5, witness: [alice] adds a first key. *)
Lemma AddKey_success_in_both_stores_witness :
  exists u' w',
    AddKey alice k1 (world_of alice []) = (None, u', w') /\
    Keys u' = [k1] /\ users w' !! "a@x.com" = Some u'.
Proof.
  destruct (AddKey alice k1 (world_of alice [])) as [[r u'] w'] eqn:HA.
  assert (r = None) as -> by (by vm_compute in HA; inversion HA).
  destruct (AddKey_success_in_both_stores alice k1 (world_of alice []) u' w' HA)
    as (HK & HU & _).
  exists u', w'. split; [reflexivity|]. split; [exact HK | exact HU].
Defined.

(** What a successful [RemoveKey] did: the key [FindKey] found at [n] was
    deregistered, then the user without it was stored. *)
Lemma RemoveKey_nil_inv u key w u' w' :
  RemoveKey u key w = (None, u', w') ->
  exists (n : nat) k w1,
    FindKey u key = (k, Z.of_nat n) /\ Keys u !! n = Some k /\ matches k key /\
    repository.RemoveKey (Email u) (RepoKey k) w = (None, w1) /\
    u' = set_Keys u (delete n (Keys u)) /\
    Update u' w1 = (None, w').
Proof.
  intros H.
  destruct (FindKey_spec u key) as [[_ Hall] | (n & k & Hf & Hl & Hm & _)].
  { by rewrite (RemoveKey_not_found _ _ _ Hall) in H. }
  rewrite (RemoveKey_found _ _ _ _ _ Hf Hl) in H.
  destruct (removeKeyRepository u k w) as [[e|] w1] eqn:HR; [done|].
  apply removeKeyRepository_inv in HR as (r0 & HR & Hr0). destruct r0; [done|].
  simpl in H. destruct (Update (set_Keys u (delete n (Keys u))) w1) as [r w2] eqn:HU.
  inversion H; subst r u' w2.
  exists n, k, w1. done.
Qed.

(** X6: a key list without two keys of the same name or content, and a
    successful [RemoveKey] of one of its keys.  That key is the one
    deleted: the list is one shorter, every other key is still there, the
    key can no longer be found, the list is still without duplicates, the
    Repository Manager no longer has the name registered and the Document
    Store holds the user with the new list. *)
Theorem RemoveKey_success_removes_the_key u key w u' w' :
  distinct_keys (Keys u) ->
  key ∈ Keys u ->
  RemoveKey u key w = (None, u', w') ->
  length (Keys u') = (length (Keys u) - 1)%nat /\
  (forall k, k ∈ Keys u -> k <> key -> k ∈ Keys u') /\
  HasKey u' key = false /\
  distinct_keys (Keys u') /\
  repository.registered w' (Email u) (Name key) = false /\
  users w' !! Email u = Some u'.
Proof.
  intros Hd Hin H.
  apply RemoveKey_nil_inv in H as (n & k & w1 & Hf & Hl & Hm & HR & -> & HU).
  apply list_elem_of_lookup in Hin as [m Hm'].
  assert (m = n) as ->.
  { destruct (decide (m = n)) as [|Hne]; [done|].
    destruct (Hd n m k key Hl Hm'); [congruence | done]. }
  assert (k = key) as -> by congruence.
  apply repository_RemoveKey_ok in HR as (_ & _ & _ & Hreg).
  apply Update_ok in HU as (HU & Hrepo & _). simpl in *.
  repeat split.
  - rewrite length_delete; [done | by eexists].
  - intros k Hk Hne. apply list_elem_of_lookup in Hk as [j Hj].
    assert (j <> n) as Hjn by (intros ->; congruence).
    apply list_elem_of_lookup.
    destruct (decide (j < n)%nat).
    + exists j. by rewrite list_lookup_delete_lt.
    + exists (j - 1)%nat. rewrite list_lookup_delete_ge by lia.
      by replace (S (j - 1)) with j by lia.
  - apply HasKey_false. simpl. apply Forall_forall. intros k Hk.
    apply list_elem_of_lookup in Hk as [j Hj].
    destruct (decide (j < n)%nat).
    + rewrite list_lookup_delete_lt in Hj by done. eapply Hd; [exact Hj | exact Hl | lia].
    + rewrite list_lookup_delete_ge in Hj by lia. eapply Hd; [exact Hj | exact Hl | lia].
  - by apply distinct_keys_delete.
  - unfold repository.registered in *. by rewrite Hrepo.
  - rewrite HU. apply lookup_insert_eq.
Qed.

(** X6, witness: [bob] removes the second key. *)
Lemma RemoveKey_success_removes_the_key_witness :
  HasKey (RemoveKey bob kB (world_of_bob [])).1.2 kB = false.
Proof.
  assert (distinct_keys (Keys bob)) as Hd.
  { intros [|[|[|i]]] [|[|[|j]]] ki kj Hi Hj Hne; try done;
      inversion Hi; inversion Hj; subst; intros [?|?]; discriminate. }
  assert (kB ∈ Keys bob) as Hin by (apply list_elem_of_In; simpl; tauto).
  destruct (RemoveKey bob kB (world_of_bob [])) as [[r u'] w'] eqn:HR.
  assert (r = None) as -> by (by vm_compute in HR; inversion HR).
  exact (proj1 (proj2 (proj2
           (RemoveKey_success_removes_the_key bob kB (world_of_bob []) u' w' Hd Hin HR)))).
Defined.

(** X7: a key added and then removed under the name it was stored with
    leaves the key list as it was before the two calls, provided both
    return nil; the name is then no longer registered. *)
Theorem AddKey_then_RemoveKey_restores u key w u1 w1 u2 w2 :
  AddKey u key w = (None, u1, w1) ->
  RemoveKey u1 (nameKey u key) w1 = (None, u2, w2) ->
  Keys u2 = Keys u /\
  repository.registered w2 (Email u) (Name (nameKey u key)) = false /\
  users w2 !! Email u = Some u2.
Proof.
  intros HA HR.
  apply AddKey_nil_inv in HA as (Hk & w0 & _ & H2).
  unfold addKeyDB, bind, ret in H2.
  destruct (Update _ w0) as [r w'] eqn:HU. inversion H2; subst r u1 w'. clear H2 HU.
  apply HasKey_false in Hk.
  apply RemoveKey_nil_inv in HR as (n & k & w3 & Hf & Hl & Hm & HRm & -> & HU).
  simpl in *.
  assert (n = length (Keys u) /\ k = nameKey u key) as [-> ->].
  { destruct (decide (n < length (Keys u))%nat) as [Hlt | Hge].
    - rewrite lookup_app_l in Hl by done.
      rewrite Forall_forall in Hk. destruct (Hk k); [|done].
      apply list_elem_of_lookup. eauto.
    - rewrite lookup_app_r in Hl by lia.
      apply list_lookup_singleton_Some in Hl as [? <-]. split; [lia | done]. }
  apply repository_RemoveKey_ok in HRm as (_ & _ & _ & Hreg).
  apply Update_ok in HU as (HU & Hrepo & _). simpl in *.
  repeat split.
  - rewrite delete_take_drop, take_app_length, drop_ge by (rewrite length_app; simpl; lia).
    apply app_nil_r.
  - unfold repository.registered in *. by rewrite Hrepo.
  - rewrite HU. apply lookup_insert_eq.
Qed.

(** X7, witness: [bob] adds a fourth key and removes it again. *)
Lemma AddKey_then_RemoveKey_restores_witness :
  exists u1 w1 u2 w2,
    AddKey bob kD (world_of_bob []) = (None, u1, w1) /\
    RemoveKey u1 kD w1 = (None, u2, w2) /\
    Keys u2 = [kA; kB; kC].
Proof.
  destruct (AddKey bob kD (world_of_bob [])) as [[r1 u1] w1] eqn:HA.
  assert (r1 = None) as -> by (by vm_compute in HA; inversion HA).
  destruct (RemoveKey u1 (nameKey bob kD) w1) as [[r2 u2] w2] eqn:HR.
  assert (r2 = None) as ->.
  { vm_compute in HA. inversion HA; subst u1 w1. by vm_compute in HR; inversion HR. }
  exists u1, w1, u2, w2. split; [reflexivity|]. split; [exact HR|].
  exact (proj1 (AddKey_then_RemoveKey_restores bob kD (world_of_bob []) u1 w1 u2 w2 HA HR)).
Defined.

(** ** Create and its registration with the Repository Manager *)











(** [Create] returning nil went through the connection, the insertion and
    the registration. *)
Lemma Create_nil_inv u w u' w' :
  Create u w = (None, u', w') ->
  exists w1 w2,
    db.Conn w = (None, w1) /\ u' = (resolveQuota u w1).1 /\
    db.users_Insert u' w1 = (None, w2) /\
    createOnRepositoryManager u' w2 = (None, w').
Proof.
  intros H.
  destruct (db.Conn w) as [[e|] w1] eqn:Hc.
  { unfold Create, bind, ret in H. rewrite Hc in H. discriminate. }
  rewrite (Create_connected _ _ _ Hc) in H.
  destruct (db.users_Insert _ w1) as [[e|] w2] eqn:Hi; [by inversion H|].
  destruct (createOnRepositoryManager _ w2) as [[e|] w3] eqn:Hrm; inversion H; subst.
  by exists w1, w2.
Qed.



Lemma users_Insert_failed u w e w1 :
  db.users_Insert u w = (Some e, w1) -> after_call (DbInsert (Email u)) w w1.
Proof.
  unfold db.users_Insert. intros H. op_inv H; try done; by repeat split.
Qed.

(** X10: when the insertion fails [Create] returns its error at once.  The
    Repository Manager is not called and nothing is deleted: both stores,
    and with them a record that already sat under the email, are as
    before. *)
Theorem Create_insert_failure_touches_nothing u w w1 e w2 :
  db.Conn w = (None, w1) ->
  db.users_Insert (resolveQuota u w1).1 w1 = (Some e, w2) ->
  Create u w = (Some e, (resolveQuota u w1).1, w2) /\
  same_state w w2 /\
  calls w2 = calls w ++ [DbConn; DbInsert (Email u)].
Proof.
  intros Hc Hi. split.
  { rewrite (Create_connected _ _ _ Hc). by rewrite Hi. }
  apply Conn_inv in Hc as (? & ? & ? & ? & Hc0).
  apply users_Insert_failed in Hi as (? & ? & ? & ? & Hc1).
  rewrite resolveQuota_Email in Hc1.
  split; [repeat split; congruence|].
  rewrite Hc1, Hc0, <- (assoc_L (++)). done.
Qed.

(** X10, witness: [alice] is created a second time. *)
Lemma Create_insert_failure_touches_nothing_witness :
  exists e w2,
    Create alice (world_of alice []) = (Some e, alice, w2) /\
    users w2 !! "a@x.com" = Some alice /\
    calls w2 = [DbConn; DbInsert "a@x.com"].
Proof.
  pose (w := world_of alice []).
  destruct (Create_insert_failure_touches_nothing alice w (db.Conn w).2 db.ErrDup
              (db.users_Insert alice (db.Conn w).2).2)
    as (HC & (Hu & _) & Hcalls); try (vm_compute; reflexivity).
  exists db.ErrDup. eexists. split; [exact HC|]. split; [by rewrite Hu | exact Hcalls].
Defined.

(** X11: the compensation of [Create] is a full [Delete]: after a failed
    registration, and with a connection for [Delete], the Document Store is
    asked to remove the record and the Repository Manager to remove the
    user, also when it was [CreateUser] that failed.  When that removal
    succeeds the Repository Manager has no user of that email left. *)
Theorem Create_compensation_removes_repository_user u w w1 w2 e w3 w4 r1 w5 r2 w6 :
  db.Conn w = (None, w1) ->
  let u1 := (resolveQuota u w1).1 in
  db.users_Insert u1 w1 = (None, w2) ->
  createOnRepositoryManager u1 w2 = (Some e, w3) ->
  db.Conn w3 = (None, w4) ->
  db.users_Remove (Email u) w4 = (r1, w5) ->
  repository.RemoveUser (Email u) (logged fmt_database u1 r1 w5) = (r2, w6) ->
  exists w',
    Create u w = (Some e, u1, w') /\
    calls w' = calls w3 ++ [DbConn; DbRemove (Email u); RmRemoveUser (Email u)] /\
    (r2 = None -> repo w' !! Email u = None).
Proof.
  intros Hc u1 Hi Hrm Hc3 Hr1 Hr2.
  assert (Email u1 = Email u) as HE by apply resolveQuota_Email.
  rewrite <- HE in *.
  exists (Delete u1 w3).2. split.
  { rewrite (Create_connected _ _ _ Hc). fold u1. by rewrite Hi, Hrm. }
  rewrite (Delete_connected _ _ _ _ _ _ _ Hc3 Hr1 Hr2).
  destruct (Delete_connected_effects _ _ _ _ _ _ _ Hc3 Hr1 Hr2) as (Hcalls & _ & _ & Hgone).
  done.
Qed.

(** X11, witness: the manager already knows [carol] and refuses the key;
    the failed [Create] removes the registration it found. *)
Lemma Create_compensation_removes_repository_user_witness :
  let w := mkWorld ∅ {[ "c@x.com" := ∅ ]} ∅ [] [None; None; None; Some netErr] [] in
  exists u1 w',
    Create carol w
      = (Some (errorString "failed to add key to git server: connection refused"), u1, w') /\
    repo w !! "c@x.com" = Some ∅ /\
    repo w' !! "c@x.com" = None.
Proof.
  intros w.
  pose (u1 := set_Quota carol quota.Unlimited).
  pose (w2 := (db.users_Insert u1 (db.Conn w).2).2).
  pose (w3 := (createOnRepositoryManager u1 w2).2).
  pose (w5 := (db.users_Remove "c@x.com" (db.Conn w3).2).2).
  destruct (Create_compensation_removes_repository_user carol w (db.Conn w).2 w2
              (errorString "failed to add key to git server: connection refused")
              w3 (db.Conn w3).2 None w5 None
              (repository.RemoveUser "c@x.com" w5).2)
    as (w' & HC & _ & Hgone); try (vm_compute; reflexivity).
  exists u1, w'. split; [exact HC|]. split; [reflexivity | exact (Hgone eq_refl)].
Defined.

(** ** Other users are left alone *)

Lemma others_untouched_refl email w : others_untouched email w w.
Proof. by intros other _. Qed.

Lemma others_untouched_trans email w1 w2 w3 :
  others_untouched email w1 w2 -> others_untouched email w2 w3 ->
  others_untouched email w1 w3.
Proof.
  intros H12 H23 other Hne.
  destruct (H12 other Hne) as [? ?], (H23 other Hne) as [? ?]. split; congruence.
Qed.

Lemma others_untouched_stores email w w' :
  users w' = users w -> repo w' = repo w -> others_untouched email w w'.
Proof. intros Hu Hr other _. by rewrite Hu, Hr. Qed.

Lemma after_call_others c email w w' : after_call c w w' -> others_untouched email w w'.
Proof. intros (Hu & Hr & _). by apply others_untouched_stores. Qed.

(** A call for [email], to either collaborator, changes at most what is
    kept under [email]. *)
Ltac call_others H :=
  let other := fresh "other" in
  let Hne := fresh "Hne" in
  op_inv H; intros other Hne; simpl;
  rewrite ?lookup_insert_ne, ?lookup_delete_ne by done;
  split; congruence.

Lemma users_Insert_others u w r w' :
  db.users_Insert u w = (r, w') -> others_untouched (Email u) w w'.
Proof. unfold db.users_Insert. intros H. call_others H. Qed.

Lemma users_Update_others email u w r w' :
  db.users_Update email u w = (r, w') -> others_untouched email w w'.
Proof. unfold db.users_Update. intros H. call_others H. Qed.

Lemma users_Remove_others email w r w' :
  db.users_Remove email w = (r, w') -> others_untouched email w w'.
Proof. unfold db.users_Remove. intros H. call_others H. Qed.

Lemma repository_CreateUser_others email w r w' :
  repository.CreateUser email w = (r, w') -> others_untouched email w w'.
Proof. unfold repository.CreateUser. intros H. call_others H. Qed.

Lemma repository_RemoveUser_others email w r w' :
  repository.RemoveUser email w = (r, w') -> others_untouched email w w'.
Proof. unfold repository.RemoveUser. intros H. call_others H. Qed.

Lemma repository_AddKey_others email key w r w' :
  repository.AddKey email key w = (r, w') -> others_untouched email w w'.
Proof. unfold repository.AddKey. intros H. call_others H. Qed.

Lemma repository_RemoveKey_others email key w r w' :
  repository.RemoveKey email key w = (r, w') -> others_untouched email w w'.
Proof. unfold repository.RemoveKey. intros H. call_others H. Qed.

Lemma Update_others u w : others_untouched (Email u) w (Update u w).2.
Proof.
  unfold Update, bind, ret. destruct (db.Conn w) as [[e|] w1] eqn:Hc; simpl.
  - eapply after_call_others, Conn_inv, Hc.
  - eapply others_untouched_trans; [eapply after_call_others, Conn_inv, Hc|].
    destruct (db.users_Update (Email u) u w1) eqn:HU. by eapply users_Update_others.
Qed.

Lemma addKeyRepository_others u key w :
  others_untouched (Email u) w (addKeyRepository u key w).2.
Proof.
  destruct (addKeyRepository u key w) as [r w'] eqn:H.
  apply addKeyRepository_inv in H as (r0 & H & _). by eapply repository_AddKey_others.
Qed.

Lemma removeKeyRepository_others u key w :
  others_untouched (Email u) w (removeKeyRepository u key w).2.
Proof.
  destruct (removeKeyRepository u key w) as [r w'] eqn:H.
  apply removeKeyRepository_inv in H as (r0 & H & _). by eapply repository_RemoveKey_others.
Qed.

Lemma addKeysRepository_others u keys : forall w,
  others_untouched (Email u) w (addKeysRepository u keys w).2.
Proof.
  induction keys as [|key keys IH]; intros w; simpl; [apply others_untouched_refl|].
  unfold bind. pose proof (addKeyRepository_others u key w) as H0.
  destruct (addKeyRepository u key w) as [[e|] w0]; [done|].
  eapply others_untouched_trans; [exact H0 | apply IH].
Qed.

Lemma createOnRepositoryManager_others u w :
  others_untouched (Email u) w (createOnRepositoryManager u w).2.
Proof.
  unfold createOnRepositoryManager, bind, ret.
  destruct (repository.CreateUser (Email u) w) as [[e|] w0] eqn:H0;
    apply repository_CreateUser_others in H0; [done|].
  eapply others_untouched_trans; [exact H0 | apply addKeysRepository_others].
Qed.

Lemma logged_others format u r email w :
  others_untouched email w (logged format u r w).
Proof. apply others_untouched_stores; [apply logged_users | apply logged_repo]. Qed.

Lemma Delete_others u w : others_untouched (Email u) w (Delete u w).2.
Proof.
  destruct (db.Conn w) as [[e|] w1] eqn:Hc.
  { unfold Delete, bind, ret. rewrite Hc. eapply after_call_others, Conn_inv, Hc. }
  destruct (db.users_Remove (Email u) w1) as [r1 w2] eqn:H1.
  destruct (repository.RemoveUser (Email u) (logged fmt_database u r1 w2)) as [r2 w3] eqn:H2.
  rewrite (Delete_connected _ _ _ _ _ _ _ Hc H1 H2). simpl.
  eapply others_untouched_trans; [eapply after_call_others, Conn_inv, Hc|].
  eapply others_untouched_trans; [eapply users_Remove_others, H1|].
  eapply others_untouched_trans; [apply logged_others|].
  eapply others_untouched_trans; [eapply repository_RemoveUser_others, H2|].
  apply logged_others.
Qed.

Lemma Create_others u w : others_untouched (Email u) w (Create u w).2.
Proof.
  destruct (db.Conn w) as [[e|] w1] eqn:Hc.
  { unfold Create, bind, ret. rewrite Hc. eapply after_call_others, Conn_inv, Hc. }
  rewrite (Create_connected _ _ _ Hc).
  pose proof (resolveQuota_Email u w1) as HE.
  eapply others_untouched_trans; [eapply after_call_others, Conn_inv, Hc|].
  destruct (db.users_Insert _ w1) as [r2 w2] eqn:Hi.
  apply users_Insert_others in Hi. rewrite HE in Hi.
  destruct r2 as [e|]; [done|].
  eapply others_untouched_trans; [exact Hi|].
  pose proof (createOnRepositoryManager_others (resolveQuota u w1).1 w2) as Hrm.
  rewrite HE in Hrm.
  destruct (createOnRepositoryManager _ w2) as [[e|] w3]; [|done]. simpl in *.
  eapply others_untouched_trans; [exact Hrm|].
  rewrite <- HE. apply Delete_others.
Qed.

Lemma AddKey_others u key w : others_untouched (Email u) w (AddKey u key w).2.
Proof.
  destruct (HasKey u (nameKey u key)) eqn:Hk.
  { unfold AddKey. rewrite Hk. apply others_untouched_refl. }
  pose proof (addKeyRepository_others u (nameKey u key) w) as H1'.
  destruct (addKeyRepository u (nameKey u key) w) as [[e|] w1] eqn:H1.
  { by rewrite (AddKey_repository_fails _ _ _ _ _ Hk H1). }
  eapply others_untouched_trans; [exact H1'|].
  destruct (addKeyDB u (nameKey u key) w1) as [[r2 u2] w2] eqn:H2.
  assert (others_untouched (Email u) w1 w2 /\ Email u2 = Email u) as [HU HE].
  { unfold addKeyDB, bind, ret in H2.
    pose proof (Update_others (set_Keys u (Keys u ++ [nameKey u key])) w1) as HU.
    destruct (Update _ w1). inversion H2; subst. done. }
  destruct r2 as [e|].
  - pose proof (removeKeyRepository_others u2 (nameKey u key) w2) as H3'.
    destruct (removeKeyRepository u2 (nameKey u key) w2) as [r3 w3] eqn:H3.
    rewrite (AddKey_persist_fails _ _ _ _ _ _ _ _ _ Hk H1 H2 H3). simpl in *.
    rewrite HE in H3'.
    eapply others_untouched_trans; [exact HU|].
    eapply others_untouched_trans; [exact H3'|].
    destruct r3; [by apply others_untouched_stores | apply others_untouched_refl].
  - by rewrite (AddKey_ok _ _ _ _ _ _ Hk H1 H2).
Qed.

Lemma RemoveKey_others u key w : others_untouched (Email u) w (RemoveKey u key w).2.
Proof.
  destruct (FindKey_spec u key) as [[_ Hall] | (n & k & Hf & Hl & _ & _)].
  { rewrite (RemoveKey_not_found _ _ _ Hall). apply others_untouched_refl. }
  rewrite (RemoveKey_found _ _ _ _ _ Hf Hl).
  pose proof (removeKeyRepository_others u k w) as HR.
  destruct (removeKeyRepository u k w) as [[e|] w1]; [done|]. simpl in *.
  eapply others_untouched_trans; [exact HR|].
  apply (Update_others (set_Keys u (delete n (Keys u))) w1).
Qed.

(** X12: [Create], [Delete], [Update], [AddKey] and [RemoveKey] for a user
    change, in the Document Store and in the Repository Manager, nothing
    that is kept under another email, whatever they return. *)
Theorem operations_leave_other_users_alone u key w :
  others_untouched (Email u) w (Create u w).2 /\
  others_untouched (Email u) w (Delete u w).2 /\
  others_untouched (Email u) w (Update u w).2 /\
  others_untouched (Email u) w (AddKey u key w).2 /\
  others_untouched (Email u) w (RemoveKey u key w).2.
Proof.
  split; [apply Create_others|]. split; [apply Delete_others|].
  split; [apply Update_others|]. split; [apply AddKey_others | apply RemoveKey_others].
Qed.

(** ** Looking a user up *)

Lemma users_FindOne_inv email w r w' :
  db.users_FindOne email w = (r, w') ->
  after_call (DbFindOne email) w w' /\
  (forall u, r = inr u -> users w !! email = Some u) /\
  (users w !! email = None -> exists e, r = inl e).
Proof.
  unfold db.users_FindOne. intros H.
  apply external_inv in H as [(e & -> & Hc) | (w0 & Hc & Hrun)].
  { split; [done|]. split; [done | by eauto]. }
  cbv beta in Hrun. pose proof Hc as (Hu & _).
  destruct (users w0 !! email) as [u|] eqn:Hl; inversion Hrun; subst.
  - split; [done|]. split; [|congruence]. intros u' [= <-]. congruence.
  - split; [done|]. split; [done | by eauto].
Qed.

Lemma same_state_after_call c w w' : after_call c w w' -> same_state w w'.
Proof. intros (? & ? & ? & ? & _). by repeat split. Qed.

Lemma same_state_trans w1 w2 w3 :
  same_state w1 w2 -> same_state w2 w3 -> same_state w1 w3.
Proof. intros (? & ? & ? & ?) (? & ? & ? & ?). repeat split; congruence. Qed.

Section Lookup.
Variable ValidateEmail : string -> bool.

(** X13: [GetUserByEmail] only reads: both stores, the configuration and
    the log are the same after the call.  A user it returns is the record
    stored under the email, comes with a nil error, and the email is
    valid.  For an email that is not valid the result is the validation
    error and no call is made at all. *)
Theorem GetUserByEmail_only_reads email w r w' :
  GetUserByEmail ValidateEmail email w = (r, w') ->
  same_state w w' /\
  (forall u, r.1 = Some u ->
     users w !! email = Some u /\ r.2 = None /\ ValidateEmail email = true) /\
  (ValidateEmail email = false ->
     r = (None, Some (ValidationError "invalid email")) /\ w' = w).
Proof.
  unfold GetUserByEmail. intros H.
  destruct (ValidateEmail email) eqn:Hv; simpl in H.
  2:{ inversion H; subst. repeat split; done. }
  unfold bind, ret in H.
  destruct (db.Conn w) as [[e|] w1] eqn:Hc.
  { inversion H; subst. apply Conn_inv in Hc.
    split; [by apply same_state_after_call in Hc|]. split; [done | done]. }
  apply Conn_inv in Hc.
  destruct (db.users_FindOne email w1) as [[e|u] w2] eqn:Hf;
    apply users_FindOne_inv in Hf as (Hf & Hfound & _); inversion H; subst.
  - split; [|split; done].
    eapply same_state_trans; by eapply same_state_after_call.
  - split; [eapply same_state_trans; by eapply same_state_after_call|].
    split; [|done]. intros u' [= <-].
    destruct Hc as (Hu & _). rewrite <- Hu. auto.
Qed.

Lemma GetUserByEmail_finds email w u :
  ValidateEmail email = true ->
  faults w = [] ->
  users w !! email = Some u ->
  (GetUserByEmail ValidateEmail email w).1 = (Some u, None).
Proof.
  intros Hv Hf Hl. unfold GetUserByEmail. rewrite Hv. simpl.
  unfold bind, ret, db.Conn, db.users_FindOne, external. simpl.
  rewrite Hf. simpl. rewrite Hf. simpl. by rewrite Hl.
Qed.

(** X14: what the mutating operations store is what a later lookup
    returns: after [Create], [AddKey] or [RemoveKey] returned nil, and with
    no failure to come, [GetUserByEmail] returns the user as the operation
    left it. *)
Theorem GetUserByEmail_after_success u key :
  ValidateEmail (Email u) = true ->
  (forall w u' w',
     Create u w = (None, u', w') -> faults w' = [] ->
     (GetUserByEmail ValidateEmail (Email u) w').1 = (Some u', None)) /\
  (forall w u' w',
     AddKey u key w = (None, u', w') -> faults w' = [] ->
     (GetUserByEmail ValidateEmail (Email u) w').1 = (Some u', None)) /\
  (forall w u' w',
     RemoveKey u key w = (None, u', w') -> faults w' = [] ->
     (GetUserByEmail ValidateEmail (Email u) w').1 = (Some u', None)).
Proof.
  intros Hv. split; [|split]; intros w u' w' H Hf; apply GetUserByEmail_finds; try done.
  - apply Create_nil_inv in H as (w1 & w2 & _ & -> & Hi & Hrm).
    apply createOnRepositoryManager_users in Hrm as [-> _].
    apply users_Insert_ok in Hi as (-> & _).
    rewrite resolveQuota_Email. apply lookup_insert_eq.
  - apply AddKey_nil_inv in H as (_ & w1 & _ & H2).
    unfold addKeyDB, bind, ret in H2.
    destruct (Update _ w1) as [r w2] eqn:HU. inversion H2; subst.
    apply Update_ok in HU as (-> & _). apply lookup_insert_eq.
  - apply RemoveKey_nil_inv in H as (n & k & w1 & _ & _ & _ & _ & -> & HU).
    apply Update_ok in HU as (-> & _). apply lookup_insert_eq.
Qed.

(** X15: once [Delete] has removed the record, a lookup of the email that
    gets its connection returns [ErrUserNotFound], whether the query then
    fails or not. *)
Theorem GetUserByEmail_after_Delete u w w1 w2 w3 :
  ValidateEmail (Email u) = true ->
  db.Conn w = (None, w1) ->
  db.users_Remove (Email u) w1 = (None, w2) ->
  db.Conn (Delete u w).2 = (None, w3) ->
  (Delete u w).1 = None /\
  (GetUserByEmail ValidateEmail (Email u) (Delete u w).2).1 = (None, Some ErrUserNotFound).
Proof.
  intros Hv Hc H1 Hc3.
  destruct (repository.RemoveUser (Email u) (logged fmt_database u None w2)) as [r2 w4] eqn:H2.
  destruct (Delete_connected_effects _ _ _ _ _ _ _ Hc H1 H2) as (_ & _ & Hgone & _).
  rewrite (Delete_connected _ _ _ _ _ _ _ Hc H1 H2) in *. simpl in *.
  split; [done|].
  unfold GetUserByEmail. rewrite Hv. simpl. unfold bind, ret. rewrite Hc3.
  apply Conn_inv in Hc3 as (Hu & _).
  destruct (db.users_FindOne (Email u) w3) as [r w5] eqn:Hf.
  apply users_FindOne_inv in Hf as (_ & _ & Hnone).
  destruct Hnone as [e ->]; [|done]. rewrite Hu. auto.
Qed.
End Lookup.

(** X13, witness: [alice] is looked up. *)
Lemma GetUserByEmail_only_reads_witness :
  exists w',
    GetUserByEmail (fun _ => true) "a@x.com" (world_of alice []) = (Some alice, None, w') /\
    users w' = {[ "a@x.com" := alice ]}.
Proof.
  destruct (GetUserByEmail (fun _ => true) "a@x.com" (world_of alice [])) as [r w'] eqn:H.
  destruct (GetUserByEmail_only_reads _ _ _ _ _ H) as ((Hu & _) & _ & _).
  exists w'. split; [|exact Hu].
  vm_compute in H. inversion H; subst. reflexivity.
Defined.

(** X14, witness: [carol] is created and looked up. *)
Lemma GetUserByEmail_after_success_witness :
  exists u' w',
    Create carol (empty_world []) = (None, u', w') /\
    (GetUserByEmail (fun _ => true) "c@x.com" w').1 = (Some u', None).
Proof.
  destruct (Create carol (empty_world [])) as [[r u'] w'] eqn:HC.
  assert (r = None /\ faults w' = []) as [-> Hf].
  { vm_compute in HC. inversion HC; subst. by split. }
  exists u', w'. split; [reflexivity|].
  exact (proj1 (GetUserByEmail_after_success (fun _ => true) carol k1 eq_refl) _ _ _ HC Hf).
Defined.

(** X15, witness: [alice] is deleted and looked up. *)
Lemma GetUserByEmail_after_Delete_witness :
  (GetUserByEmail (fun _ => true) "a@x.com" (Delete alice (world_of alice [])).2).1
  = (None, Some ErrUserNotFound).
Proof.
  pose (w := world_of alice []).
  exact (proj2 (GetUserByEmail_after_Delete (fun _ => true) alice w (db.Conn w).2
                  (db.users_Remove "a@x.com" (db.Conn w).2).2
                  (db.Conn (Delete alice w).2).2
                  eq_refl eq_refl eq_refl eq_refl)).
Defined.

(** ** ListKeys *)

Lemma keysMap_lookup_acc keys : forall (acc : gmap string string) name,
  foldl (fun m key => <[repository.Name key := repository.Body key]> m) acc keys !! name
  = match last (filter (fun k => repository.Name k = name) keys) with
    | Some k => Some (repository.Body k)
    | None => acc !! name
    end.
Proof.
  induction keys as [|key keys IH]; intros acc name; simpl; [done|].
  rewrite IH. destruct (decide (repository.Name key = name)) as [Heq|Hne].
  - rewrite filter_cons_True by done.
    destruct (filter _ keys) as [|k' l] eqn:Hfl; simpl.
    + rewrite <- Heq. apply lookup_insert_eq.
    + destruct (last (k' :: l)) eqn:Hl'; [done|]. by apply last_None in Hl'.
  - rewrite filter_cons_False by done.
    destruct (last (filter _ keys)); [done|]. by rewrite lookup_insert_ne.
Qed.

Section ListKeysProperties.
Variable Manager_ListKeys : string -> M (list repository.Key * option error).

(** X16: [ListKeys] passes the error of the Repository Manager on, with a
    nil map.  Otherwise its map has, under each name, the body of the last
    listed key of that name, and nothing under a name that is not listed;
    with all names different it has as many entries as keys are listed. *)
Theorem ListKeys_map_of_listed_keys u w keys err w' :
  Manager_ListKeys (Email u) w = (keys, err, w') ->
  match err with
  | Some e => ListKeys Manager_ListKeys u w = (None, Some e, w')
  | None =>
      exists m,
        ListKeys Manager_ListKeys u w = (Some m, None, w') /\
        (forall name,
           m !! name
           = repository.Body <$> last (filter (fun k => repository.Name k = name) keys)) /\
        (forall name, is_Some (m !! name) <-> name ∈ repository.Name <$> keys) /\
        (NoDup (repository.Name <$> keys) -> size m = length keys)
  end.
Proof.
  intros H. unfold ListKeys, bind, ret. rewrite H.
  destruct err as [e|]; [done|].
  exists (keysMap keys).
  assert (forall name,
           keysMap keys !! name
           = repository.Body <$> last (filter (fun k => repository.Name k = name) keys))
    as Hlookup.
  { intros name. unfold keysMap. rewrite keysMap_lookup_acc.
    destruct (last _); [done | apply lookup_empty]. }
  assert (forall name, is_Some (keysMap keys !! name) <-> name ∈ repository.Name <$> keys)
    as Hdom.
  { intros name. rewrite Hlookup, list_elem_of_fmap. split.
    - intros [b Hb]. destruct (last _) as [k|] eqn:Hlast; [|done].
      apply last_Some_elem_of, list_elem_of_filter in Hlast as [Hn Hin]. eauto.
    - intros (k & -> & Hin).
      destruct (last (filter (fun k0 => repository.Name k0 = repository.Name k) keys))
        eqn:Hlast; [by eexists|].
      apply last_None in Hlast.
      assert (k ∈ filter (fun k0 => repository.Name k0 = repository.Name k) keys) as Hk
        by (by apply list_elem_of_filter).
      rewrite Hlast in Hk. by apply elem_of_nil in Hk. }
  repeat split; try done; try apply Hdom.
  intros Hnd. rewrite <- (length_fmap repository.Name keys).
  rewrite <- size_dom, <- (size_list_to_set (C:=gset string)) by done.
  f_equal. apply set_eq. intros name.
  rewrite elem_of_dom, elem_of_list_to_set. apply Hdom.
Qed.
End ListKeysProperties.

(** X16, witness: two keys are listed under one name; the later one is in
    the map. *)
Lemma ListKeys_map_of_listed_keys_witness :
  exists m w',
    ListKeys
      (fun _ => ret ([repository.mkKey "laptop" "ssh-rsa OLD";
                      repository.mkKey "phone" "ssh-rsa CCC";
                      repository.mkKey "laptop" "ssh-rsa AAA"], None))
      bob (empty_world []) = (Some m, None, w') /\
    m !! "laptop" = Some "ssh-rsa AAA" /\ m !! "tablet" = None.
Proof.
  destruct (ListKeys_map_of_listed_keys
              (fun _ => ret ([repository.mkKey "laptop" "ssh-rsa OLD";
                              repository.mkKey "phone" "ssh-rsa CCC";
                              repository.mkKey "laptop" "ssh-rsa AAA"], None))
              bob (empty_world []) _ None (empty_world []) eq_refl)
    as (m & HL & Hlookup & _).
  exists m, (empty_world []). split; [exact HL|].
  split; [rewrite Hlookup; reflexivity | rewrite Hlookup; reflexivity].
Defined.

(** ** IsAdmin *)

Section TeamsProperties.
Variable Team : Type.
Variable Team_Name : Team -> string.
Variable teams_FindAll : string -> M (list Team * option error).
Variable GetString : string -> M (string * option error).

Lemma hasTeamNamed_true name teams :
  hasTeamNamed Team Team_Name name teams = true
  <-> exists t, t ∈ teams /\ Team_Name t = name.
Proof.
  induction teams as [|t teams IH]; simpl.
  - split; [done|]. intros (t & Hin & _). by apply elem_of_nil in Hin.
  - destruct (String.eqb (Team_Name t) name) eqn:E.
    + apply String.eqb_eq in E. split; [|done]. intros _. exists t. split; [left | done].
    + apply String.eqb_neq in E. rewrite IH. split.
      * intros (t' & Hin & Hn). exists t'. split; [by right | done].
      * intros (t' & Hin & Hn). apply elem_of_cons in Hin as [-> | Hin]; [done|]. eauto.
Qed.

(** X17: [IsAdmin] answers true only when the setting [admin-team] could be
    read, the teams of the user could be fetched, and one of them has the
    name that is set; conversely it then answers true.  Any failure on the
    way gives false, and when the setting is missing the teams are not
    even fetched. *)
Theorem IsAdmin_only_for_admin_team_members u w b w' :
  IsAdmin Team Team_Name teams_FindAll GetString u w = (b, w') ->
  (b = true <->
   exists name w1 teams t,
     GetString "admin-team" w = (name, None, w1) /\
     Teams Team teams_FindAll u w1 = (teams, None, w') /\
     t ∈ teams /\ Team_Name t = name) /\
  (forall name e w1, GetString "admin-team" w = (name, Some e, w1) ->
     b = false /\ w' = w1).
Proof.
  unfold IsAdmin, bind at 1. intros H.
  destruct (GetString "admin-team" w) as [[name [e|]] w1] eqn:HG.
  { inversion H; subst. split.
    - split; [done|]. by intros (? & ? & ? & ? & [=] & _).
    - intros ? ? ? [= <- <- <-]. done. }
  unfold bind, ret in H.
  destruct (Teams Team teams_FindAll u w1) as [[teams [e|]] w2] eqn:HT.
  { inversion H; subst. split; [|done]. split; [done|].
    intros (? & ? & ? & ? & [= <- <-] & HT' & _). congruence. }
  inversion H; subst. split; [|done]. rewrite hasTeamNamed_true. split.
  - intros (t & Hin & Hn). by exists name, w1, teams, t.
  - intros (? & ? & ? & t & [= <- <-] & HT' & Hin & Hn).
    rewrite HT in HT'. inversion HT'; subst. eauto.
Qed.
End TeamsProperties.

(** X17, witness: the admin team is "ops"; the user is in "dev" and "ops". *)
Lemma IsAdmin_only_for_admin_team_members_witness :
  (IsAdmin named_team (fun t => t) (fun _ => ret (["dev"; "ops"], None))
     (fun _ => ret ("ops", None)) alice (empty_world [])).1 = true.
Proof.
  destruct (IsAdmin named_team (fun t => t) (fun _ => ret (["dev"; "ops"], None))
              (fun _ => ret ("ops", None)) alice (empty_world [])) as [b w'] eqn:H.
  apply (proj2 (proj1 (IsAdmin_only_for_admin_team_members _ _ _ _ _ _ _ _ H))).
  exists "ops", (empty_world []), ["dev"; "ops"], "ops".
  split; [reflexivity|]. split; [|split; [|reflexivity]].
  - vm_compute in H. inversion H; subst. vm_compute. reflexivity.
  - apply list_elem_of_In. simpl. tauto.
Defined.

(** ** The API key *)

Lemma length_hex b : String.length (hex b) = (2 * String.length b)%nat.
Proof. induction b as [|a b IH]; simpl; [done|]. rewrite IH. lia. Qed.

Section APIKeyProperties.
Variable SHA256 : string -> string.
Variable now : string.

(** X18: [RegenerateAPIKey] changes the API key of the user and nothing
    else.  When the random source fails it returns an empty key with that
    error, and neither the user nor the world changes.  Otherwise the key
    is the digest of email, random bytes and time in hexadecimal, twice as
    long as the digest; it is returned, and kept by the user in memory,
    also when storing it fails, and it is the stored key when storing
    succeeds. *)
Theorem RegenerateAPIKey_sets_the_key rand_Read u w key err u' w' :
  RegenerateAPIKey SHA256 rand_Read now u w = (key, err, u', w') ->
  Email u' = Email u /\ Password u' = Password u /\
  Keys u' = Keys u /\ Quota u' = Quota u /\
  (forall e, rand_Read.2 = Some e ->
     key = "" /\ err = Some e /\ u' = u /\ w' = w) /\
  (rand_Read.2 = None ->
     key = hex (SHA256 (Email u +:+ rand_Read.1 +:+ now)) /\
     APIKey u' = key /\
     String.length key = (2 * String.length (SHA256 (Email u +:+ rand_Read.1 +:+ now)))%nat /\
     (Update u' w = (err, w')) /\
     (err = None -> users w' !! Email u = Some u')).
Proof.
  unfold RegenerateAPIKey. destruct rand_Read as [random_byte [e|]]; simpl; intros H.
  - inversion H; subst. repeat split; try done.
  - unfold bind, ret in H.
    destruct (Update _ w) as [r w1] eqn:HU. inversion H; subst. simpl.
    repeat split; try done.
    + apply length_hex.
    + intros ->. apply Update_ok in HU as (-> & _). apply lookup_insert_eq.
Qed.

(** X19: [ShowAPIKey] for a user that has an API key returns that key and
    stores the user as it is; the random source is not consulted.  For a
    user without one it generates a key first, and the error returned is
    the one of the second update alone: when the random source fails the
    result is an empty key with whatever that update returns. *)
Theorem ShowAPIKey_returns_or_generates rand_Read u w :
  (APIKey u <> "" ->
   ShowAPIKey SHA256 rand_Read now u w = (APIKey u, (Update u w).1, u, (Update u w).2)) /\
  (APIKey u = "" -> forall e, rand_Read.2 = Some e ->
   ShowAPIKey SHA256 rand_Read now u w = ("", (Update u w).1, u, (Update u w).2)) /\
  (APIKey u = "" -> rand_Read.2 = None ->
   let u1 := set_APIKey u (hex (SHA256 (Email u +:+ rand_Read.1 +:+ now))) in
   let w1 := (Update u1 w).2 in
   ShowAPIKey SHA256 rand_Read now u w = (APIKey u1, (Update u1 w1).1, u1, (Update u1 w1).2)).
Proof.
  unfold ShowAPIKey, RegenerateAPIKey.
  split; [|split].
  - intros Hk. apply String.eqb_neq in Hk. rewrite Hk.
    unfold bind, ret. by destruct (Update u w).
  - intros Hk e He. rewrite Hk. simpl.
    destruct rand_Read as [random_byte [e0|]]; [|done]. simpl in *.
    unfold bind, ret. rewrite Hk. by destruct (Update u w).
  - intros Hk He. rewrite Hk. simpl.
    destruct rand_Read as [random_byte [e0|]]; [done|]. simpl.
    unfold bind, ret.
    destruct (Update (set_APIKey u _) w) as [r1 w1]. simpl.
    by destruct (Update (set_APIKey u _) w1).
Qed.
End APIKeyProperties.

(** X18, witness: [alice] gets a key of 64 digits. *)
Lemma RegenerateAPIKey_sets_the_key_witness :
  exists key u' w',
    RegenerateAPIKey constant_digest ("00000000000000000000000000000000", None)
      "2015-01-01T00:00:00Z" alice (world_of alice []) = (key, None, u', w') /\
    String.length key = 64%nat /\ users w' !! "a@x.com" = Some u'.
Proof.
  destruct (RegenerateAPIKey constant_digest ("00000000000000000000000000000000", None)
              "2015-01-01T00:00:00Z" alice (world_of alice []))
    as [[[key err] u'] w'] eqn:H.
  destruct (RegenerateAPIKey_sets_the_key _ _ _ _ _ _ _ _ _ H)
    as (_ & _ & _ & _ & _ & Hok).
  destruct (Hok eq_refl) as (_ & _ & Hlen & _ & Hstored).
  assert (err = None) as -> by (by vm_compute in H; inversion H).
  exists key, u', w'. split; [reflexivity|]. split; [exact Hlen | exact (Hstored eq_refl)].
Defined.

(** X19, witness: the random source is down and [alice] has no key yet:
    an empty key and a nil error. *)
Lemma ShowAPIKey_returns_or_generates_witness :
  (ShowAPIKey constant_digest ("", Some netErr) "2015-01-01T00:00:00Z"
     alice (world_of alice [])).1.1 = ("", None).
Proof.
  rewrite (proj1 (proj2 (ShowAPIKey_returns_or_generates constant_digest
                           "2015-01-01T00:00:00Z" ("", Some netErr) alice
                           (world_of alice []))) eq_refl netErr eq_refl).
  vm_compute. reflexivity.
Defined.
